(** * Room lifecycle of the multiplayer chess server

    A shallow embedding of [server.js]: the [rooms] map, the socket.io
    groups the handlers join and leave, and the six event listeners
    registered on every socket ([username], [createRoom], [joinRoom],
    [move], [disconnect], [closeRoom]).

    Every listener body is run to completion as one step; what a listener
    sends (acknowledgement callbacks and packets broadcast to a group) is
    collected in a log, and an uncaught JavaScript exception ends the
    listener where it is raised, keeping the mutations made before it. *)

From Stdlib Require Import String List Bool ZArith Arith Lia.
Import ListNotations.
Open Scope string_scope.
Open Scope list_scope.

(** ** JavaScript values the handlers compare *)

Inductive JsValue : Type :=
| undefined
| number (n : Z).

(** [v <= n] and [v >= n] for a numeric literal [n]: [undefined] converts
    to NaN, and every comparison with NaN is false. *)
Definition js_le (v : JsValue) (n : Z) : bool :=
  match v with
  | undefined => false
  | number m => (m <=? n)%Z
  end.

Definition js_ge (v : JsValue) (n : Z) : bool :=
  match v with
  | undefined => false
  | number m => (m >=? n)%Z
  end.

(** ** [Map] with string keys, in insertion order *)

Module JsMap.
Section WithValues.
Variable V : Type.

Definition t := list (string * V).

Definition empty : t := [].

Fixpoint get (k : string) (m : t) : option V :=
  match m with
  | [] => None
  | (k', v) :: m' => if String.eqb k' k then Some v else get k m'
  end.

(** [set] keeps the position of a key that is already there and appends
    a new one. *)
Fixpoint set (k : string) (v : V) (m : t) : t :=
  match m with
  | [] => [(k, v)]
  | (k', v') :: m' =>
      if String.eqb k' k then (k, v) :: m' else (k', v') :: set k v m'
  end.

Definition delete (k : string) (m : t) : t :=
  filter (fun e => negb (String.eqb (fst e) k)) m.

Definition keys (m : t) : list string := map fst m.

Definition values (m : t) : list V := map snd m.
End WithValues.

Arguments get {V} k m.
Arguments set {V} k v m.
Arguments delete {V} k m.
Arguments keys {V} m.
Arguments values {V} m.
End JsMap.

(** ** Data model *)

Definition SocketId := string.
Definition RoomId := string.

(** [{ id: socket.id, username: socket.data?.username }]; a socket that
    never sent [username] has [undefined] there. *)
Module Player.
Record t : Type := { id : SocketId; username : option string }.
End Player.

(** [{ roomId, players: [...] }] *)
Module Room.
Record t : Type := { roomId : RoomId; players : list Player.t }.

(** [room.length]: a room object has the properties [roomId] and
    [players] and no other, so the lookup gives [undefined]. *)
Definition length (room : t) : JsValue := undefined.
End Room.

(** The acknowledgement function a client may pass as last argument. *)
Inductive Callback : Type :=
| NoCallback
| AckFn.

Definition truthy (callback : Callback) : bool :=
  match callback with
  | NoCallback => false
  | AckFn => true
  end.

(** What a callback is called with. *)
Inductive Reply : Type :=
| RRoomId (roomId : RoomId)
| RError (error : bool) (message : string)
| RRoom (roomUpdate : Room.t).

(** What a broadcast carries. *)
Inductive Payload : Type :=
| PRoom (roomUpdate : Room.t)
| PMove (move : string)
| PPlayer (userInRoom : Player.t)
| PClose (roomId : RoomId).

Inductive Effect : Type :=
| Ack (socket : SocketId) (reply : Reply)
| Deliver (recipient : SocketId) (event : string) (room : RoomId)
          (payload : Payload).

Definition via (r : RoomId) (e : Effect) : bool :=
  match e with
  | Ack _ _ => false
  | Deliver _ _ room _ => String.eqb room r
  end.

(** The state of the process: the [rooms] map of the server, the
    [username] each socket stored in [socket.data], and the socket.io
    groups, kept as the pairs (socket, group) made by [socket.join]. *)
Record Server : Type := {
  rooms : JsMap.t Room.t;
  usernames : JsMap.t string;
  memberships : list (SocketId * RoomId)
}.

Definition initial : Server :=
  {| rooms := JsMap.empty _; usernames := JsMap.empty _; memberships := [] |}.

(** ** Handlers: state, log, exceptions *)

Inductive Completion (A : Type) : Type :=
| Returned (a : A)
| Thrown (err : string).
Arguments Returned {A} a.
Arguments Thrown {A} err.

Record Outcome (A : Type) : Type := {
  final : Server;
  sent : list Effect;
  completion : Completion A
}.

Arguments Build_Outcome {A} final sent completion.
Arguments final {A} o.
Arguments sent {A} o.
Arguments completion {A} o.

Definition Handler (A : Type) : Type := Server -> Outcome A.

Definition ret {A} (a : A) : Handler A :=
  fun s => {| final := s; sent := []; completion := Returned a |}.

Definition bind {A B} (c : Handler A) (k : A -> Handler B) : Handler B :=
  fun s =>
    let o := c s in
    match completion o with
    | Returned a =>
        let o' := k a (final o) in
        {| final := final o'; sent := sent o ++ sent o';
           completion := completion o' |}
    | Thrown err =>
        {| final := final o; sent := sent o; completion := Thrown err |}
    end.

Notation "x <- c ;; k" := (bind c (fun x => k))
  (at level 61, c at next level, right associativity).
Notation "c ;; k" := (bind c (fun _ => k))
  (at level 61, right associativity).

Definition throw {A} (err : string) : Handler A :=
  fun s => {| final := s; sent := []; completion := Thrown err |}.

Definition tell (es : list Effect) : Handler unit :=
  fun s => {| final := s; sent := es; completion := Returned tt |}.

Definition gets {A} (f : Server -> A) : Handler A :=
  fun s => {| final := s; sent := []; completion := Returned (f s) |}.

Definition modify (f : Server -> Server) : Handler unit :=
  fun s => {| final := f s; sent := []; completion := Returned tt |}.

(** [list.forEach(f)] *)
Fixpoint forEach {A} (l : list A) (f : A -> Handler unit) : Handler unit :=
  match l with
  | [] => ret tt
  | x :: l' => f x ;; forEach l' f
  end.

(** [callback(reply)] *)
Definition call (socket : SocketId) (callback : Callback) (reply : Reply)
  : Handler unit :=
  match callback with
  | AckFn => tell [Ack socket reply]
  | NoCallback => throw "TypeError: callback is not a function"
  end.

(** ** The [rooms] map and [socket.data] *)

Definition rooms_get (roomId : RoomId) : Handler (option Room.t) :=
  gets (fun s => JsMap.get roomId (rooms s)).

Definition rooms_set (roomId : RoomId) (room : Room.t) : Handler unit :=
  modify (fun s =>
    {| rooms := JsMap.set roomId room (rooms s);
       usernames := usernames s; memberships := memberships s |}).

Definition rooms_delete (roomId : RoomId) : Handler unit :=
  modify (fun s =>
    {| rooms := JsMap.delete roomId (rooms s);
       usernames := usernames s; memberships := memberships s |}).

Definition rooms_values : Handler (list Room.t) :=
  gets (fun s => JsMap.values (rooms s)).

Definition username_of (socket : SocketId) (s : Server) : option string :=
  JsMap.get socket (usernames s).

Definition data_username (socket : SocketId) : Handler (option string) :=
  gets (username_of socket).

Definition set_data_username (socket : SocketId) (username : string)
  : Handler unit :=
  modify (fun s =>
    {| rooms := rooms s;
       usernames := JsMap.set socket username (usernames s);
       memberships := memberships s |}).

(** ** socket.io groups *)

Definition same (p q : SocketId * RoomId) : bool :=
  String.eqb (fst p) (fst q) && String.eqb (snd p) (snd q).

(** The sockets of a group, in the order they joined. *)
Definition group (room : RoomId) (ms : list (SocketId * RoomId))
  : list SocketId :=
  map fst (filter (fun p => String.eqb (snd p) room) ms).

Definition members (room : RoomId) (s : Server) : list SocketId :=
  group room (memberships s).

Definition others (socket : SocketId) (l : list SocketId) : list SocketId :=
  filter (fun c => negb (String.eqb c socket)) l.

Definition with_memberships (f : list (SocketId * RoomId) ->
                                 list (SocketId * RoomId)) : Handler unit :=
  modify (fun s =>
    {| rooms := rooms s; usernames := usernames s;
       memberships := f (memberships s) |}).

(** [socket.join(room)] *)
Definition socket_join (socket : SocketId) (room : RoomId) : Handler unit :=
  with_memberships (fun ms =>
    if existsb (same (socket, room)) ms then ms else ms ++ [(socket, room)]).

(** [s.leave(room)] *)
Definition socket_leave (socket : SocketId) (room : RoomId) : Handler unit :=
  with_memberships (filter (fun p => negb (same (socket, room) p))).

(** A socket that closes has left every group by the time its
    [disconnect] listeners run. *)
Definition socket_leave_all (socket : SocketId) : Handler unit :=
  with_memberships (filter (fun p => negb (String.eqb (fst p) socket))).

(** [io.in(room).fetchSockets()] *)
Definition fetchSockets (room : RoomId) : Handler (list SocketId) :=
  gets (members room).

(** [socket.to(room).emit(event, payload)]: one packet to every socket of
    the group but the sender. *)
Definition socket_to_emit (socket : SocketId) (room : RoomId)
  (event : string) (payload : Payload) : Handler unit :=
  cs <- gets (members room) ;;
  tell (map (fun c => Deliver c event room payload) (others socket cs)).

(** ** The listeners *)

(** [socket.on('username', ...)] *)
Definition username (socket : SocketId) (name : string) : Handler unit :=
  set_data_username socket name.

(** [socket.on('createRoom', ...)]; [uuid] is what [uuidV4()] returned. *)
Definition createRoom (socket : SocketId) (callback : Callback)
  (uuid : RoomId) : Handler unit :=
  let roomId := uuid in
  socket_join socket roomId ;;
  name <- data_username socket ;;
  rooms_set roomId
    {| Room.roomId := roomId;
       Room.players := [ {| Player.id := socket; Player.username := name |} ]
    |} ;;
  call socket callback (RRoomId roomId).

(** [socket.on('joinRoom', ...)] *)
Definition joinRoom (socket : SocketId) (args_roomId : RoomId)
  (callback : Callback) : Handler unit :=
  room <- rooms_get args_roomId ;;
  let '(error, message) :=
    match room with
    | None => (true, "room does not exist")
    | Some room =>
        if js_le (Room.length room) 0 then (true, "room is empty")
        else if js_ge (Room.length room) 2 then (true, "room is full")
        else (false, "")
    end in
  if error then
    if truthy callback then call socket callback (RError error message)
    else ret tt
  else
    match room with
    | None => throw "TypeError: room is undefined"
    | Some room =>
        socket_join socket args_roomId ;;
        name <- data_username socket ;;
        let roomUpdate :=
          {| Room.roomId := Room.roomId room;
             Room.players :=
               Room.players room ++
               [ {| Player.id := socket; Player.username := name |} ] |} in
        rooms_set args_roomId roomUpdate ;;
        call socket callback (RRoom roomUpdate) ;;
        socket_to_emit socket args_roomId "opponentJoined" (PRoom roomUpdate)
    end.

(** [socket.on('move', ...)] *)
Definition move (socket : SocketId) (data_room : RoomId) (data_move : string)
  : Handler unit :=
  socket_to_emit socket data_room "move" (PMove data_move).

(** [socket.on("disconnect", ...)] *)
Definition disconnect (socket : SocketId) : Handler unit :=
  gameRooms <- rooms_values ;;
  forEach gameRooms (fun room =>
    match find (fun player => String.eqb (Player.id player) socket)
               (Room.players room) with
    | Some userInRoom =>
        if (List.length (Room.players room) <? 2)%nat then
          rooms_delete (Room.roomId room)
        else
          socket_to_emit socket (Room.roomId room) "playerDisconnected"
            (PPlayer userInRoom)
    | None => ret tt
    end).

(** [socket.on("closeRoom", ...)] *)
Definition closeRoom (socket : SocketId) (data_roomId : RoomId)
  : Handler unit :=
  socket_to_emit socket data_roomId "closeRoom" (PClose data_roomId) ;;
  clientSockets <- fetchSockets data_roomId ;;
  forEach clientSockets (fun s => socket_leave s data_roomId) ;;
  rooms_delete data_roomId.

(** ** Events and runs *)

Inductive Event : Type :=
| EUsername (socket : SocketId) (name : string)
| ECreateRoom (socket : SocketId) (callback : Callback) (uuid : RoomId)
| EJoinRoom (socket : SocketId) (roomId : RoomId) (callback : Callback)
| EMove (socket : SocketId) (room : RoomId) (move : string)
| EDisconnect (socket : SocketId)
| ECloseRoom (socket : SocketId) (roomId : RoomId).

Definition handle (e : Event) : Handler unit :=
  match e with
  | EUsername socket name => username socket name
  | ECreateRoom socket callback uuid => createRoom socket callback uuid
  | EJoinRoom socket roomId callback => joinRoom socket roomId callback
  | EMove socket room mv => move socket room mv
  | EDisconnect socket => socket_leave_all socket ;; disconnect socket
  | ECloseRoom socket roomId => closeRoom socket roomId
  end.

Definition step (s : Server) (e : Event) : Server := final (handle e s).

Definition run (evs : list Event) (s : Server) : Server :=
  fold_left step evs s.

(** The identifiers [uuidV4()] returned along a run, latest last. *)
Definition uuids (evs : list Event) : list RoomId :=
  flat_map (fun e => match e with
                     | ECreateRoom _ _ uuid => [uuid]
                     | _ => []
                     end) evs.

(** ** Predicates on states and runs *)

Definition handles (room : Room.t) : list SocketId :=
  map Player.id (Room.players room).

Definition listed (socket : SocketId) (room : Room.t) : bool :=
  existsb (fun player => String.eqb (Player.id player) socket)
          (Room.players room).

(** What the [disconnect] listener of [socket] does with one room of the
    map: whether it deletes it, and the packets it sends for it. *)
Definition deleted_on_disconnect (socket : SocketId) (room : Room.t) : bool :=
  match find (fun player => String.eqb (Player.id player) socket)
             (Room.players room) with
  | Some _ => (List.length (Room.players room) <? 2)%nat
  | None => false
  end.

Definition announced_on_disconnect (socket : SocketId)
  (ms : list (SocketId * RoomId)) (room : Room.t) : list Effect :=
  match find (fun player => String.eqb (Player.id player) socket)
             (Room.players room) with
  | Some userInRoom =>
      if (List.length (Room.players room) <? 2)%nat then []
      else map (fun c => Deliver c "playerDisconnected" (Room.roomId room)
                                 (PPlayer userInRoom))
               (others socket (group (Room.roomId room) ms))
  | None => []
  end.

Definition outlives (socket : SocketId) (gameRooms : list Room.t)
  (k : RoomId) : bool :=
  forallb (fun room => negb (deleted_on_disconnect socket room &&
                             String.eqb k (Room.roomId room))) gameRooms.

(** Every entry of the map sits under its own [roomId], once. *)
Definition well_keyed (m : JsMap.t Room.t) : Prop :=
  NoDup (JsMap.keys m) /\
  forall k room, In (k, room) m -> Room.roomId room = k.

(** A [joinRoom] names a room that does not list the sender yet. *)
Definition newcomer (s : Server) (e : Event) : bool :=
  match e with
  | EJoinRoom socket roomId _ =>
      match JsMap.get roomId (rooms s) with
      | Some room => negb (listed socket room)
      | None => true
      end
  | _ => true
  end.

Fixpoint newcomers_only (evs : list Event) (s : Server) : bool :=
  match evs with
  | [] => true
  | e :: evs' => newcomer s e && newcomers_only evs' (step s e)
  end.

(** What holds of the state after every run in which [uuidV4()] never
    returned the same identifier twice; [issued] are the identifiers
    returned so far. *)
Record consistent (issued : list RoomId) (s : Server) : Prop := {
  cs_keyed : well_keyed (rooms s);
  cs_issued : forall k, In k (JsMap.keys (rooms s)) -> In k issued;
  cs_groups : forall c r, In (c, r) (memberships s) ->
      exists room, JsMap.get r (rooms s) = Some room /\ In c (handles room);
  cs_occupied : forall k room, In (k, room) (rooms s) ->
      Room.players room <> []
}.

(** ** Scenarios *)

Definition alice : Player.t :=
  {| Player.id := "a"; Player.username := Some "alice" |}.
Definition bob : Player.t :=
  {| Player.id := "b"; Player.username := Some "bob" |}.
Definition carol : Player.t :=
  {| Player.id := "c"; Player.username := Some "carol" |}.

Definition one_player : list Event :=
  [ EUsername "a" "alice"; ECreateRoom "a" AckFn "r1" ].

Definition two_players : list Event :=
  one_player ++ [ EUsername "b" "bob"; EJoinRoom "b" "r1" AckFn ].

Definition three_players : list Event :=
  two_players ++ [ EUsername "c" "carol"; EJoinRoom "c" "r1" AckFn ].

Definition joins_own_room : list Event :=
  one_player ++ [ EJoinRoom "a" "r1" AckFn ].

Definition waiting : Server := run one_player initial.

(** Two connected sockets and no room: socket.io keeps every connected
    socket in a group named by its own id. *)
Definition two_connected : Server :=
  {| rooms := JsMap.empty _; usernames := JsMap.empty _;
     memberships := [("a", "a"); ("b", "b")] |}.
Definition playing : Server := run two_players initial.

(** * The first version of the server

    The earlier [server.js]: [rooms] maps a roomId to the array of the
    usernames in the room, [joinRoom] looks at the socket.io group instead
    of the map, and there is no listener for [disconnect] or [closeRoom].
    The handlers are written with the state passed explicitly. *)

Module Legacy.

Record Server : Type := {
  rooms : JsMap.t (list (option string));
  usernames : JsMap.t string;
  memberships : list (SocketId * RoomId)
}.

Definition initial : Server :=
  {| rooms := JsMap.empty _; usernames := JsMap.empty _; memberships := [] |}.

(** [players] is what [rooms.get] gave, [undefined] included. *)
Inductive Reply : Type :=
| RRoomId (roomId : RoomId)
| RError (error : bool) (message : string)
| RJoined (roomId : RoomId) (players : option (list (option string))).

Inductive Payload : Type :=
| PPlayers (players : option (list (option string)))
| PMove (move : string).

Inductive Effect : Type :=
| Ack (socket : SocketId) (reply : Reply)
| Deliver (recipient : SocketId) (event : string) (room : RoomId)
          (payload : Payload).

Inductive Exception : Type :=
| NotAFunction   (* calling [undefined] *)
| NotIterable.   (* spreading [undefined] *)

Record Outcome : Type := {
  final : Server;
  sent : list Effect;
  thrown : option Exception
}.

Definition join_group (socket : SocketId) (room : RoomId)
  (ms : list (SocketId * RoomId)) : list (SocketId * RoomId) :=
  if existsb (same (socket, room)) ms then ms else ms ++ [(socket, room)].

Definition broadcast (socket : SocketId) (room : RoomId) (event : string)
  (payload : Payload) (s : Server) : list Effect :=
  map (fun c => Deliver c event room payload)
      (others socket (group room (memberships s))).

(** [socket.on('username', ...)] *)
Definition username (socket : SocketId) (name : string) (s : Server)
  : Outcome :=
  {| final := {| rooms := rooms s;
                 usernames := JsMap.set socket name (usernames s);
                 memberships := memberships s |};
     sent := []; thrown := None |}.

(** [socket.on('createRoom', ...)] *)
Definition createRoom (socket : SocketId) (callback : Callback)
  (uuid : RoomId) (s : Server) : Outcome :=
  let roomId := uuid in
  let s1 := {| rooms := rooms s; usernames := usernames s;
               memberships := join_group socket roomId (memberships s) |} in
  let s2 := {| rooms := JsMap.set roomId [JsMap.get socket (usernames s1)]
                                  (rooms s1);
               usernames := usernames s1; memberships := memberships s1 |} in
  match callback with
  | AckFn => {| final := s2; sent := [Ack socket (RRoomId roomId)];
                thrown := None |}
  | NoCallback => {| final := s2; sent := []; thrown := Some NotAFunction |}
  end.

(** [socket.on('joinRoom', ...)] *)
Definition joinRoom (socket : SocketId) (args_roomId : RoomId)
  (callback : Callback) (s : Server) : Outcome :=
  let room := group args_roomId (memberships s) in
  if (List.length room =? 0)%nat then
    {| final := s;
       sent := if truthy callback
               then [Ack socket (RError true "room is empty")] else [];
       thrown := None |}
  else
    match JsMap.get args_roomId (rooms s) with
    | None => {| final := s; sent := []; thrown := Some NotIterable |}
    | Some names =>
        let s1 := {| rooms := JsMap.set args_roomId
                                (names ++ [JsMap.get socket (usernames s)])
                                (rooms s);
                     usernames := usernames s;
                     memberships := memberships s |} in
        let s2 := {| rooms := rooms s1; usernames := usernames s1;
                     memberships :=
                       join_group socket args_roomId (memberships s1) |} in
        let players := JsMap.get args_roomId (rooms s2) in
        match callback with
        | NoCallback =>
            {| final := s2; sent := []; thrown := Some NotAFunction |}
        | AckFn =>
            {| final := s2;
               sent := Ack socket (RJoined args_roomId players) ::
                       broadcast socket args_roomId "opponentJoined"
                                 (PPlayers players) s2;
               thrown := None |}
        end
    end.

(** [socket.on('move', ...)] *)
Definition move (socket : SocketId) (data_room : RoomId)
  (data_move : string) (s : Server) : Outcome :=
  {| final := s;
     sent := broadcast socket data_room "move" (PMove data_move) s;
     thrown := None |}.

(** A socket that closes leaves its groups; nothing listens to
    [disconnect], nor to [closeRoom]. *)
Definition handle (e : Event) (s : Server) : Outcome :=
  match e with
  | EUsername socket name => username socket name s
  | ECreateRoom socket callback uuid => createRoom socket callback uuid s
  | EJoinRoom socket roomId callback => joinRoom socket roomId callback s
  | EMove socket room mv => move socket room mv s
  | EDisconnect socket =>
      {| final := {| rooms := rooms s; usernames := usernames s;
                     memberships :=
                       filter (fun p => negb (String.eqb (fst p) socket))
                              (memberships s) |};
         sent := []; thrown := None |}
  | ECloseRoom _ _ => {| final := s; sent := []; thrown := None |}
  end.

Definition step (s : Server) (e : Event) : Server := final (handle e s).

Definition run (evs : list Event) (s : Server) : Server :=
  fold_left step evs s.

End Legacy.

(** * The client

    The [Game] component around a chess.js instance, and the lobby made of
    [App] and [InitGame]. A component is its state variables; a handler
    takes the state of the render it closes over and gives the state after
    it, with what it emitted on the socket. *)

Module Client.

Inductive Color : Type := w | b.

(** ['w'] or ['b'], as [game.turn()] returns it. *)
Definition letter (c : Color) : string :=
  match c with
  | w => "w"
  | b => "b"
  end.

(** [s[0]]: a one-character string, [undefined] for the empty string. *)
Definition at0 (s : string) : option string :=
  match s with
  | EmptyString => None
  | String c _ => Some (String c EmptyString)
  end.

Definition same_value (x y : option string) : bool :=
  match x, y with
  | Some s, Some t => String.eqb s t
  | None, None => true
  | _, _ => false
  end.

(** What [game.move] is called with: the object [onDrop] builds, or a move
    object received from the server. *)
Inductive MoveArg (Move : Type) : Type :=
| moveData (from to : string) (color : Color) (promotion : string)
| received (move : Move).
Arguments moveData {Move} from to color promotion.
Arguments received {Move} move.

(** [game.move] returns the move made, or throws on an illegal move and
    leaves the position alone. *)
Inductive Attempt (Game Move : Type) : Type :=
| Made (result : Move) (after : Game)
| Illegal.
Arguments Made {Game Move} result after.
Arguments Illegal {Game Move}.

(** The part of chess.js the component uses. *)
Class ChessJs (Game Move : Type) : Type := {
  new_Chess : Game;
  game_move : Game -> MoveArg Move -> Attempt Game Move;
  game_fen : Game -> string;
  game_turn : Game -> Color;
  isGameOver : Game -> bool;
  isCheckmate : Game -> bool;
  isDraw : Game -> bool
}.

Section GameComponent.
Context {Game Move : Type} `{ChessJs Game Move}.

(** The props the handlers read; [players] and [username] are only
    rendered. *)
Record Props : Type := {
  room : option string;
  orientation : string
}.

Record State : Type := {
  game : Game;
  fen : string;
  over : string
}.

(** The state at mount: [new Chess()], [useState(game.fen())],
    [useState("")]. *)
Definition mount : State :=
  {| game := new_Chess; fen := game_fen new_Chess; over := "" |}.

Inductive Emit : Type :=
| EmitMove (move : Move) (room : option string).

(** The [if (game.isGameOver())] block of [makeAMove]. *)
Definition announce (g : Game) (over : string) : string :=
  if isGameOver g then
    if isCheckmate g then
      ("Checkmate! " ++
       (if String.eqb (letter (game_turn g)) "w" then "black" else "white")
       ++ " wins!")%string
    else if isDraw g then "Draw"
    else "Game over"
  else over.

(** [makeAMove(move)]: the move made, or [null]. *)
Definition makeAMove (move : MoveArg Move) (st : State)
  : State * option Move :=
  match game_move (game st) move with
  | Made result after =>
      ({| game := after; fen := game_fen after;
          over := announce after (over st) |}, Some result)
  | Illegal => (st, None)
  end.

(** What [onDrop] returns. *)
Inductive Dropped : Type := ReturnsNull | ReturnsFalse | ReturnsTrue.

(** [onDrop(sourceSquare, targetSquare)] *)
Definition onDrop (props : Props) (sourceSquare targetSquare : string)
  (st : State) : State * list Emit * Dropped :=
  if negb (same_value (Some (letter (game_turn (game st))))
                      (at0 (orientation props)))
  then (st, [], ReturnsNull)
  else
    let data := moveData sourceSquare targetSquare (game_turn (game st)) "q" in
    let '(st', move) := makeAMove data st in
    match move with
    | None => (st', [], ReturnsFalse)
    | Some move => (st', [EmitMove move (room props)], ReturnsTrue)
    end.

(** [socket.on("move", (move) => makeAMove(move))] *)
Definition onMove (move : Move) (st : State) : State :=
  fst (makeAMove (received move) st).

(** [handleContinue] of the game-over dialog. *)
Definition dismiss (st : State) : State :=
  {| game := game st; fen := fen st; over := "" |}.

Inductive UI : Type :=
| Drop (sourceSquare targetSquare : string)
| Incoming (move : Move)
| Continue.

Definition react (props : Props) (st : State) (u : UI) : State :=
  match u with
  | Drop sourceSquare targetSquare =>
      fst (fst (onDrop props sourceSquare targetSquare st))
  | Incoming move => onMove move st
  | Continue => dismiss st
  end.

Definition emitted (props : Props) (st : State) (u : UI) : list Emit :=
  match u with
  | Drop sourceSquare targetSquare =>
      snd (fst (onDrop props sourceSquare targetSquare st))
  | _ => []
  end.

End GameComponent.

(** ** The lobby: [App] and [InitGame] *)

Record App : Type := {
  app_room : option string;
  app_orientation : string;
  app_username : string;
  app_players : option (list (option string));
  usernameGiven : bool
}.

Definition App_mount : App :=
  {| app_room := Some ""; app_orientation := ""; app_username := "";
     app_players := Some []; usernameGiven := false |}.

Record InitGame : Type := {
  roomDialogOpen : bool;
  roomInput : string;
  roomError : option string
}.

Definition InitGame_mount : InitGame :=
  {| roomDialogOpen := false; roomInput := ""; roomError := Some "" |}.

(** What the lobby emits; [createRoom] and [joinRoom] always go with a
    callback. *)
Inductive Request : Type :=
| SendUsername (username : string)
| SendCreateRoom
| SendJoinRoom (roomId : string).

(** [room ? <Game/> : <InitGame/>] *)
Definition in_game (app : App) : bool :=
  match app_room app with
  | Some EmptyString => false
  | Some _ => true
  | None => false
  end.

(** [handleContinue] of the username dialog. *)
Definition username_continue (app : App) : App * list Request :=
  match app_username app with
  | EmptyString => (app, [])
  | name =>
      ({| app_room := app_room app; app_orientation := app_orientation app;
          app_username := app_username app;
          app_players := app_players app; usernameGiven := true |},
       [SendUsername name])
  end.

(** [socket.on("opponentJoined", (players) => setPlayers(players))] *)
Definition onOpponentJoined (players : option (list (option string)))
  (app : App) : App :=
  {| app_room := app_room app; app_orientation := app_orientation app;
     app_username := app_username app;
     app_players := players; usernameGiven := usernameGiven app |}.

(** [handleContinue] of the join dialog. *)
Definition join_continue (ig : InitGame) : list Request :=
  match roomInput ig with
  | EmptyString => []
  | roomId => [SendJoinRoom roomId]
  end.

(** The fields the [joinRoom] callback reads of its argument. *)
Definition r_error (r : Legacy.Reply) : bool :=
  match r with
  | Legacy.RError error _ => error
  | _ => false
  end.

Definition r_message (r : Legacy.Reply) : option string :=
  match r with
  | Legacy.RError _ message => Some message
  | _ => None
  end.

Definition r_roomId (r : Legacy.Reply) : option string :=
  match r with
  | Legacy.RJoined roomId _ => Some roomId
  | _ => None
  end.

Definition r_players (r : Legacy.Reply) : option (list (option string)) :=
  match r with
  | Legacy.RJoined _ players => players
  | _ => None
  end.

(** The callback [InitGame] passes with [joinRoom]. *)
Definition onJoinReply (r : Legacy.Reply) (app : App) (ig : InitGame)
  : App * InitGame :=
  if r_error r then
    (app, {| roomDialogOpen := roomDialogOpen ig; roomInput := roomInput ig;
             roomError := r_message r |})
  else
    ({| app_room := r_roomId r; app_orientation := "black";
        app_username := app_username app;
        app_players := r_players r; usernameGiven := usernameGiven app |},
     {| roomDialogOpen := false; roomInput := roomInput ig;
        roomError := roomError ig |}).

(** The callback [InitGame] passes with [createRoom]. *)
Definition onCreateReply (r : RoomId) (app : App) : App :=
  {| app_room := Some r; app_orientation := "white";
     app_username := app_username app;
     app_players := app_players app; usernameGiven := usernameGiven app |}.

(** The "Join a game" dialog confirmed against the first server: the
    request goes out, the server handles it, and every answer it
    acknowledges runs the callback. *)
Definition join_roundtrip (socket : SocketId) (app : App) (ig : InitGame)
  (server : Legacy.Server) : App * InitGame * Legacy.Server :=
  match join_continue ig with
  | [SendJoinRoom roomId] =>
      let o := Legacy.joinRoom socket roomId AckFn server in
      let '(app', ig') :=
        fold_left (fun st e =>
                     match e with
                     | Legacy.Ack _ r => onJoinReply r (fst st) (snd st)
                     | _ => st
                     end) (Legacy.sent o) (app, ig) in
      (app', ig', Legacy.final o)
  | _ => (app, ig, server)
  end.

End Client.

(** A position counter standing for chess.js in the examples: a move from
    a square to itself is illegal, the game is over after four moves. *)
Definition toy_move (g : nat) (m : Client.MoveArg string)
  : Client.Attempt nat string :=
  match m with
  | Client.moveData from to _ _ =>
      if String.eqb from to then Client.Illegal
      else Client.Made (from ++ to)%string (S g)
  | Client.received mv => Client.Made mv (S g)
  end.

#[local] Instance toy_chess : Client.ChessJs nat string := {|
  Client.new_Chess := 0;
  Client.game_move := toy_move;
  Client.game_fen := fun g => if Nat.even g then "white to move"
                              else "black to move";
  Client.game_turn := fun g => if Nat.even g then Client.w else Client.b;
  Client.isGameOver := fun g => (4 <=? g)%nat;
  Client.isCheckmate := fun g => (4 <=? g)%nat;
  Client.isDraw := fun _ => false
|}.

(** ** Runs of the scenarios *)

Example waiting_rooms :
  rooms waiting = [("r1", {| Room.roomId := "r1"; Room.players := [alice] |})].
Proof. reflexivity. Qed.

Example playing_rooms :
  rooms playing =
  [("r1", {| Room.roomId := "r1"; Room.players := [alice; bob] |})].
Proof. reflexivity. Qed.

Example playing_members : members "r1" playing = ["a"; "b"].
Proof. reflexivity. Qed.

(** ** The handler monad *)

Lemma forEach_memberships {A} (f : A -> list (SocketId * RoomId) ->
                                    list (SocketId * RoomId)) l s :
  forEach l (fun x => with_memberships (f x)) s =
  {| final := {| rooms := rooms s; usernames := usernames s;
                 memberships := fold_left (fun ms x => f x ms) l
                                          (memberships s) |};
     sent := []; completion := Returned tt |}.
Proof.
  revert s. induction l as [|x l IH]; intros s.
  - destruct s; reflexivity.
  - cbn [forEach]. unfold bind at 1. cbn. rewrite IH. reflexivity.
Qed.

Lemma mem_others socket c l :
  In c (others socket l) <-> In c l /\ c <> socket.
Proof.
  unfold others. rewrite filter_In, negb_true_iff, String.eqb_neq. tauto.
Qed.

(** ** [joinRoom]: unknown room *)

Lemma handle_joinRoom_unknown s socket roomId callback :
  JsMap.get roomId (rooms s) = None ->
  handle (EJoinRoom socket roomId callback) s =
  {| final := s;
     sent := if truthy callback
             then [Ack socket (RError true "room does not exist")]
             else [];
     completion := Returned tt |}.
Proof.
  intros Habsent. cbn [handle]. unfold joinRoom, bind, rooms_get, gets.
  cbn. rewrite Habsent. destruct callback; reflexivity.
Qed.

(** C4. A [joinRoom] that names a roomId with no entry in [rooms] answers
    [{ error: true, message: 'room does not exist' }] through the callback
    the client gave, sends nothing else, does not throw, and leaves the
    whole state, the [rooms] map included, as it was. *)
Theorem joinRoom_unknown_room s socket roomId callback :
  JsMap.get roomId (rooms s) = None ->
  let o := handle (EJoinRoom socket roomId callback) s in
  final o = s /\
  rooms (final o) = rooms s /\
  completion o = Returned tt /\
  sent o = (if truthy callback
            then [Ack socket (RError true "room does not exist")]
            else []) /\
  (callback = AckFn ->
   sent o = [Ack socket (RError true "room does not exist")]).
Proof.
  intros Habsent. cbn zeta. rewrite handle_joinRoom_unknown by assumption.
  cbn. repeat split. now intros ->.
Qed.

Lemma joinRoom_unknown_room_witness :
  JsMap.get "r2" (rooms playing) = None /\
  rooms (final (handle (EJoinRoom "c" "r2" AckFn) playing)) = rooms playing /\
  sent (handle (EJoinRoom "c" "r2" AckFn) playing) =
    [Ack "c" (RError true "room does not exist")].
Proof.
  split; [reflexivity|].
  pose proof (joinRoom_unknown_room playing "c" "r2" AckFn eq_refl)
    as (_ & Hrooms & _ & _ & Hreply).
  split; [exact Hrooms|exact (Hreply eq_refl)].
Defined.

(** ** [joinRoom]: the capacity test *)

(** Neither comparison on [room.length] can succeed. *)
Lemma capacity_test_never_fires room :
  js_le (Room.length room) 0 = false /\ js_ge (Room.length room) 2 = false.
Proof. split; reflexivity. Qed.

(** Whatever the room holds, a [joinRoom] for a stored room lets the
    sender in. *)
Lemma joinRoom_stored_room_lets_in s socket roomId room :
  JsMap.get roomId (rooms s) = Some room ->
  let roomUpdate :=
    {| Room.roomId := Room.roomId room;
       Room.players := Room.players room ++
         [ {| Player.id := socket;
              Player.username := username_of socket s |} ] |} in
  let o := handle (EJoinRoom socket roomId AckFn) s in
  completion o = Returned tt /\
  JsMap.get roomId (rooms (final o)) = Some roomUpdate /\
  In (Ack socket (RRoom roomUpdate)) (sent o).
Proof.
  intros Hroom. cbn [handle]. unfold joinRoom, bind, rooms_get, gets.
  cbn. rewrite Hroom. cbn. split; [reflexivity|]. split; [|now left].
  clear Hroom. induction (rooms s) as [|[k v] m IH]; cbn.
  - now rewrite String.eqb_refl.
  - destruct (String.eqb k roomId) eqn:E; cbn.
    + now rewrite String.eqb_refl.
    + now rewrite E.
Qed.

(** C1. A third [joinRoom] for a room that already stores two players is
    not refused: the sender is appended to the room and answered with the
    three-player room, not with 'room is full'. *)
Theorem joinRoom_full_room_takes_third :
  List.length (handles {| Room.roomId := "r1";
                          Room.players := [alice; bob] |}) = 2 /\
  JsMap.get "r1" (rooms playing) =
    Some {| Room.roomId := "r1"; Room.players := [alice; bob] |} /\
  let o := handle (EJoinRoom "c" "r1" AckFn) playing in
  let roomUpdate :=
    {| Room.roomId := "r1";
       Room.players := [alice; bob;
                        {| Player.id := "c"; Player.username := None |}] |} in
  sent o = [ Ack "c" (RRoom roomUpdate);
             Deliver "a" "opponentJoined" "r1" (PRoom roomUpdate);
             Deliver "b" "opponentJoined" "r1" (PRoom roomUpdate) ] /\
  rooms (final o) = [("r1", roomUpdate)] /\
  rooms (final o) <> rooms playing.
Proof.
  repeat split; try reflexivity. cbn. discriminate.
Qed.

(** C2. After one [createRoom] and two [joinRoom] for the same room the
    map holds a room with three players. *)
Theorem three_players_in_one_room :
  rooms (run three_players initial) =
    [("r1", {| Room.roomId := "r1";
               Room.players := [alice; bob; carol] |})] /\
  exists room, JsMap.get "r1" (rooms (run three_players initial)) = Some room
               /\ List.length (Room.players room) = 3.
Proof.
  split; [reflexivity|]. eexists. split; reflexivity.
Qed.

(** ** Missing callbacks *)

(** On the failure path a missing callback is skipped. *)
Lemma joinRoom_failure_without_callback s socket roomId :
  JsMap.get roomId (rooms s) = None ->
  handle (EJoinRoom socket roomId NoCallback) s =
  {| final := s; sent := []; completion := Returned tt |}.
Proof. apply handle_joinRoom_unknown. Qed.

(** C7. On the success path [joinRoom] calls the callback without testing
    it: with no callback the listener throws a [TypeError] after the room
    was updated and before [opponentJoined] is sent. *)
Theorem joinRoom_success_without_callback_throws :
  let o := handle (EJoinRoom "b" "r1" NoCallback) waiting in
  completion o = Thrown "TypeError: callback is not a function" /\
  sent o = [] /\
  rooms (final o) =
    [("r1", {| Room.roomId := "r1";
               Room.players :=
                 [alice; {| Player.id := "b"; Player.username := None |}] |})].
Proof. repeat split. Qed.

(** [createRoom] calls its callback without testing it as well. *)
Lemma createRoom_without_callback_throws s socket uuid :
  completion (handle (ECreateRoom socket NoCallback uuid) s) =
  Thrown "TypeError: callback is not a function".
Proof. reflexivity. Qed.

(** ** [move] *)

(** C8. A [move] sent by [socket] for group [room] changes nothing in the
    state, never throws, and is delivered, payload untouched, once to each
    socket that is in the group [room] other than the sender and to no
    socket outside that group; with nobody else in the group nothing is
    sent. *)
Theorem move_relayed_to_the_rest_of_the_room s socket room mv :
  let o := handle (EMove socket room mv) s in
  final o = s /\
  completion o = Returned tt /\
  sent o = map (fun c => Deliver c "move" room (PMove mv))
               (others socket (members room s)) /\
  (forall c, In (Deliver c "move" room (PMove mv)) (sent o) <->
             In c (members room s) /\ c <> socket) /\
  (forall e, In e (sent o) ->
     exists c, e = Deliver c "move" room (PMove mv) /\
               In c (members room s) /\ c <> socket) /\
  (others socket (members room s) = [] -> sent o = []).
Proof.
  cbn. split; [reflexivity|]. split; [reflexivity|]. split; [reflexivity|].
  split; [|split].
  - intros c. rewrite in_map_iff. split.
    + intros (c' & Heq & Hin). injection Heq as ->.
      now apply mem_others in Hin.
    + intros Hc. exists c. split; [reflexivity|]. now apply mem_others.
  - intros e Hin. apply in_map_iff in Hin as (c & <- & Hin).
    exists c. split; [reflexivity|]. now apply mem_others.
  - intros ->. reflexivity.
Qed.

(** ** Facts about [JsMap] *)

Module JsMapFacts.
Section WithValues.
Context {V : Type}.
Implicit Types (m : JsMap.t V) (k : string) (v : V).

Lemma get_In k v m : JsMap.get k m = Some v -> In (k, v) m.
Proof.
  induction m as [|[k' v'] m IH]; cbn; [discriminate|].
  destruct (String.eqb_spec k' k) as [->|Hne].
  - intros [= ->]. now left.
  - intros H. right. now apply IH.
Qed.

Lemma get_None k m : JsMap.get k m = None <-> ~ In k (JsMap.keys m).
Proof.
  induction m as [|[k' v'] m IH]; cbn; [tauto|].
  destruct (String.eqb_spec k' k) as [->|Hne].
  - split; [discriminate|]. intros H. exfalso. apply H. now left.
  - rewrite IH. tauto.
Qed.

Lemma In_keys k v m : In (k, v) m -> In k (JsMap.keys m).
Proof. intros H. apply in_map_iff. now exists (k, v). Qed.

Lemma In_get k v m :
  NoDup (JsMap.keys m) -> In (k, v) m -> JsMap.get k m = Some v.
Proof.
  induction m as [|[k' v'] m IH]; cbn; [tauto|].
  intros Hnd [Heq|Hin]; inversion Hnd as [|? ? Hnotin Hnd']; subst.
  - injection Heq as -> ->. now rewrite String.eqb_refl.
  - destruct (String.eqb_spec k' k) as [->|Hne]; [|now apply IH].
    exfalso. apply Hnotin. now apply In_keys with v.
Qed.

Lemma get_set_same k v m : JsMap.get k (JsMap.set k v m) = Some v.
Proof.
  induction m as [|[k' v'] m IH]; cbn.
  - now rewrite String.eqb_refl.
  - destruct (String.eqb k' k) eqn:E; cbn.
    + now rewrite String.eqb_refl.
    + now rewrite E.
Qed.

Lemma get_set_other k k' v m :
  k' <> k -> JsMap.get k' (JsMap.set k v m) = JsMap.get k' m.
Proof.
  intros Hne. induction m as [|[k0 v0] m IH]; cbn.
  - destruct (String.eqb_spec k k'); congruence.
  - destruct (String.eqb_spec k0 k) as [->|Hne0]; cbn.
    + destruct (String.eqb_spec k k'); congruence.
    + now rewrite IH.
Qed.


Lemma In_set k v e m :
  In e (JsMap.set k v m) -> e = (k, v) \/ In e m.
Proof.
  induction m as [|[k' v'] m IH]; cbn.
  - intros [<-|[]]. now left.
  - destruct (String.eqb k' k); cbn.
    + intros [<-|Hin]; auto.
    + intros [<-|Hin]; auto. destruct (IH Hin); auto.
Qed.

Lemma In_keys_set k v k' m :
  In k' (JsMap.keys (JsMap.set k v m)) -> k' = k \/ In k' (JsMap.keys m).
Proof.
  induction m as [|[k0 v0] m IH]; cbn.
  - intros [<-|[]]. now left.
  - destruct (String.eqb k0 k); cbn.
    + intros [<-|Hin]; auto.
    + intros [<-|Hin]; auto. destruct (IH Hin); auto.
Qed.

Lemma NoDup_keys_set k v m :
  NoDup (JsMap.keys m) -> NoDup (JsMap.keys (JsMap.set k v m)).
Proof.
  induction m as [|[k0 v0] m IH]; cbn.
  - intros _. repeat constructor. intros [].
  - intros Hnd. inversion Hnd as [|? ? Hnotin Hnd']; subst.
    destruct (String.eqb_spec k0 k) as [->|Hne]; cbn.
    + now constructor.
    + constructor; [|auto]. intros Hin.
      destruct (In_keys_set _ _ _ _ Hin) as [Heq|Hin']; [congruence|].
      now apply Hnotin.
Qed.

(** Entries kept by a test on the key. *)
Lemma get_filter_keys (f : string -> bool) k m :
  JsMap.get k (filter (fun e => f (fst e)) m) =
  if f k then JsMap.get k m else None.
Proof.
  induction m as [|[k' v'] m IH]; cbn; [now destruct (f k)|].
  destruct (String.eqb_spec k' k) as [->|Hne].
  - destruct (f k) eqn:E; cbn; [now rewrite String.eqb_refl|exact IH].
  - destruct (f k') eqn:E; cbn; [|exact IH].
    destruct (String.eqb_spec k' k); [congruence|exact IH].
Qed.

Lemma NoDup_keys_filter (f : string * V -> bool) m :
  NoDup (JsMap.keys m) -> NoDup (JsMap.keys (filter f m)).
Proof.
  induction m as [|[k v] m IH]; cbn; [auto|].
  intros Hnd. inversion Hnd as [|? ? Hnotin Hnd']; subst.
  destruct (f (k, v)); cbn; [|auto].
  constructor; [|auto]. intros Hin. apply Hnotin.
  unfold JsMap.keys in *. apply in_map_iff in Hin as (e & <- & He).
  apply filter_In in He as [He _]. now apply in_map.
Qed.

Lemma get_delete_same k m : JsMap.get k (JsMap.delete k m) = None.
Proof.
  unfold JsMap.delete.
  rewrite (get_filter_keys (fun k' => negb (String.eqb k' k))).
  now rewrite String.eqb_refl.
Qed.

Lemma get_delete_other k k' m :
  k' <> k -> JsMap.get k' (JsMap.delete k m) = JsMap.get k' m.
Proof.
  intros Hne. unfold JsMap.delete.
  rewrite (get_filter_keys (fun k' => negb (String.eqb k' k))).
  now destruct (String.eqb_spec k' k).
Qed.

Lemma delete_absent k m : JsMap.get k m = None -> JsMap.delete k m = m.
Proof.
  unfold JsMap.delete.
  induction m as [|[k' v'] m IH]; cbn; [reflexivity|].
  destruct (String.eqb k' k); [discriminate|]. cbn.
  intros H. now rewrite IH.
Qed.
End WithValues.
End JsMapFacts.

(** ** Folds of filters *)

Lemma filter_filter {A} (f g : A -> bool) l :
  filter f (filter g l) = filter (fun x => g x && f x) l.
Proof.
  induction l as [|x l IH]; cbn; [reflexivity|].
  destruct (g x); cbn; [destruct (f x)|]; now rewrite IH.
Qed.

Lemma filter_all {A} (f : A -> bool) l :
  (forall x, In x l -> f x = true) -> filter f l = l.
Proof.
  induction l as [|x l IH]; cbn; [reflexivity|].
  intros H. rewrite (H x) by now left. now rewrite IH by auto.
Qed.

Lemma filter_none {A} (f : A -> bool) l :
  (forall x, In x l -> f x = false) -> filter f l = [].
Proof.
  induction l as [|x l IH]; cbn; [reflexivity|].
  intros H. rewrite (H x) by now left. now rewrite IH by auto.
Qed.

(** Filtering once for every element of [l] is one filter. *)
Lemma fold_filter {A B} (g : B -> A -> bool) (l : list B) (acc : list A) :
  fold_left (fun acc x => filter (g x) acc) l acc =
  filter (fun a => forallb (fun x => g x a) l) acc.
Proof.
  revert acc. induction l as [|x l IH]; intros acc; cbn.
  - symmetry. now apply filter_all.
  - rewrite IH. apply filter_filter.
Qed.

(** ** What each listener does to the state *)

Lemma step_username s socket name :
  step s (EUsername socket name) =
  {| rooms := rooms s;
     usernames := JsMap.set socket name (usernames s);
     memberships := memberships s |}.
Proof. reflexivity. Qed.

Lemma step_move s socket room mv : step s (EMove socket room mv) = s.
Proof. reflexivity. Qed.

Lemma step_createRoom s socket callback uuid :
  step s (ECreateRoom socket callback uuid) =
  {| rooms := JsMap.set uuid
       {| Room.roomId := uuid;
          Room.players := [ {| Player.id := socket;
                               Player.username := username_of socket s |} ]
       |} (rooms s);
     usernames := usernames s;
     memberships :=
       if existsb (same (socket, uuid)) (memberships s) then memberships s
       else memberships s ++ [(socket, uuid)] |}.
Proof. destruct callback; reflexivity. Qed.

Lemma step_joinRoom_unknown s socket roomId callback :
  JsMap.get roomId (rooms s) = None ->
  step s (EJoinRoom socket roomId callback) = s.
Proof.
  intros H. unfold step. now rewrite handle_joinRoom_unknown.
Qed.

Lemma step_joinRoom_stored s socket roomId callback room :
  JsMap.get roomId (rooms s) = Some room ->
  step s (EJoinRoom socket roomId callback) =
  {| rooms := JsMap.set roomId
       {| Room.roomId := Room.roomId room;
          Room.players := Room.players room ++
            [ {| Player.id := socket;
                 Player.username := username_of socket s |} ] |} (rooms s);
     usernames := usernames s;
     memberships :=
       if existsb (same (socket, roomId)) (memberships s) then memberships s
       else memberships s ++ [(socket, roomId)] |}.
Proof.
  intros H. unfold step. cbn [handle]. unfold joinRoom, bind, rooms_get, gets.
  cbn. rewrite H. destruct callback; reflexivity.
Qed.

Lemma disconnect_loop socket gameRooms s :
  forEach gameRooms (fun room =>
    match find (fun player => String.eqb (Player.id player) socket)
               (Room.players room) with
    | Some userInRoom =>
        if (List.length (Room.players room) <? 2)%nat then
          rooms_delete (Room.roomId room)
        else
          socket_to_emit socket (Room.roomId room) "playerDisconnected"
            (PPlayer userInRoom)
    | None => ret tt
    end) s =
  {| final := {| rooms := filter (fun e => outlives socket gameRooms (fst e))
                                 (rooms s);
                 usernames := usernames s;
                 memberships := memberships s |};
     sent := flat_map (announced_on_disconnect socket (memberships s))
                      gameRooms;
     completion := Returned tt |}.
Proof.
  revert s. induction gameRooms as [|room l IH]; intros s.
  - cbn. rewrite filter_all by reflexivity. now destruct s.
  - cbn [forEach flat_map]. unfold bind at 1.
    unfold announced_on_disconnect at 1, outlives. cbn [forallb].
    unfold deleted_on_disconnect at 1.
    destruct (find _ (Room.players room)) as [userInRoom|].
    + destruct (List.length (Room.players room) <? 2)%nat; cbn.
      * rewrite IH. cbn. unfold JsMap.delete. rewrite filter_filter.
        reflexivity.
      * rewrite IH. cbn. reflexivity.
    + cbn. rewrite IH. reflexivity.
Qed.

Lemma handle_disconnect s socket :
  handle (EDisconnect socket) s =
  let ms := filter (fun p => negb (String.eqb (fst p) socket))
                   (memberships s) in
  {| final := {| rooms := filter (fun e => outlives socket
                                   (JsMap.values (rooms s)) (fst e)) (rooms s);
                 usernames := usernames s;
                 memberships := ms |};
     sent := flat_map (announced_on_disconnect socket ms)
                      (JsMap.values (rooms s));
     completion := Returned tt |}.
Proof.
  cbn [handle]. unfold disconnect, bind, rooms_values, gets. cbn.
  rewrite disconnect_loop. reflexivity.
Qed.

Lemma handle_closeRoom s socket roomId :
  handle (ECloseRoom socket roomId) s =
  {| final := {| rooms := JsMap.delete roomId (rooms s);
                 usernames := usernames s;
                 memberships := filter (fun p => negb (String.eqb (snd p) roomId))
                                       (memberships s) |};
     sent := map (fun c => Deliver c "closeRoom" roomId (PClose roomId))
                 (others socket (members roomId s));
     completion := Returned tt |}.
Proof.
  cbn [handle]. unfold closeRoom, bind, socket_to_emit, fetchSockets, bind.
  cbn. unfold socket_leave. rewrite forEach_memberships. cbn.
  rewrite !app_nil_r. f_equal. f_equal.
  rewrite (fold_filter (fun c p => negb (same (c, roomId) p))).
  apply filter_ext_in. intros [c r] Hin. cbn.
  destruct (String.eqb_spec r roomId) as [->|Hne]; cbn.
  - apply not_true_is_false. intros Hall.
    rewrite forallb_forall in Hall. specialize (Hall c).
    unfold same in Hall. cbn in Hall. rewrite !String.eqb_refl in Hall.
    cbn in Hall. enough (In c (members roomId s)) by (now apply Hall in H).
    unfold members, group. apply in_map_iff. exists (c, roomId).
    split; [reflexivity|]. apply filter_In. cbn.
    now rewrite String.eqb_refl.
  - apply forallb_forall. intros c' _. unfold same. cbn.
    destruct (String.eqb_spec roomId r); [congruence|].
    now rewrite andb_false_r.
Qed.

(** ** Consistency of the map and the groups *)

Lemma values_In (m : JsMap.t Room.t) room :
  In room (JsMap.values m) -> exists k, In (k, room) m.
Proof.
  unfold JsMap.values. rewrite in_map_iff.
  intros ([k v] & <- & Hin). now exists k.
Qed.

Lemma find_handle socket room userInRoom :
  find (fun player => String.eqb (Player.id player) socket)
       (Room.players room) = Some userInRoom ->
  Player.id userInRoom = socket /\ In userInRoom (Room.players room).
Proof.
  intros H. apply find_some in H as [Hin Heq].
  now apply String.eqb_eq in Heq.
Qed.

(** A room deleted by the [disconnect] of [socket] lists [socket] and
    nobody else. *)
Lemma deleted_on_disconnect_handles socket room :
  deleted_on_disconnect socket room = true ->
  forall c, In c (handles room) -> c = socket.
Proof.
  unfold deleted_on_disconnect, handles.
  destruct (find _ _) as [u|] eqn:Hfind; [|discriminate].
  apply find_handle in Hfind as [Hid Hin].
  destruct (Room.players room) as [|p [|q l]]; cbn; try discriminate.
  - destruct Hin.
  - intros _ c [<-|[]]. destruct Hin as [->|[]]. assumption.
Qed.

Lemma outlives_listed s socket r room c :
  well_keyed (rooms s) ->
  JsMap.get r (rooms s) = Some room ->
  In c (handles room) -> c <> socket ->
  outlives socket (JsMap.values (rooms s)) r = true.
Proof.
  intros [Hnd Hkey] Hget Hin Hne. apply forallb_forall. intros x Hx.
  apply negb_true_iff, not_true_is_false. intros Hboth.
  apply andb_true_iff in Hboth as [Hdel Heq].
  apply String.eqb_eq in Heq.
  apply values_In in Hx as [k Hk]. pose proof (Hkey _ _ Hk) as Hid.
  assert (x = room) as ->.
  { apply (JsMapFacts.In_get _ _ _ Hnd) in Hk. congruence. }
  apply Hne. now apply (deleted_on_disconnect_handles socket room).
Qed.

Lemma consistent_initial : consistent [] initial.
Proof.
  split; cbn; try tauto. split; [constructor|intros ? ? []].
Qed.

Lemma consistent_createRoom issued s socket callback uuid :
  consistent issued s -> ~ In uuid issued ->
  consistent (issued ++ [uuid]) (step s (ECreateRoom socket callback uuid)).
Proof.
  intros [[Hnd Hkey] Hiss Hgrp Hocc] Hfresh. rewrite step_createRoom.
  split; cbn.
  - split; [now apply JsMapFacts.NoDup_keys_set|].
    intros k room Hin. apply JsMapFacts.In_set in Hin as [[= -> ->]|Hin];
      [reflexivity|eauto].
  - intros k Hin. apply in_or_app.
    apply JsMapFacts.In_keys_set in Hin as [->|Hin]; [right; now left|auto].
  - intros c r Hin.
    assert (Hcases : (c, r) = (socket, uuid) \/ In (c, r) (memberships s)).
    { destruct (existsb _ _); [now right|].
      apply in_app_or in Hin as [Hin|[Heq|[]]]; auto. }
    destruct Hcases as [[= -> ->]|Hold].
    + eexists. rewrite JsMapFacts.get_set_same. split; [reflexivity|].
      now left.
    + destruct (Hgrp _ _ Hold) as (room & Hget & Hc).
      exists room. split; [|assumption].
      rewrite JsMapFacts.get_set_other; [assumption|].
      intros ->. apply Hfresh, Hiss.
      eapply JsMapFacts.In_keys, JsMapFacts.get_In, Hget.
  - intros k room Hin. apply JsMapFacts.In_set in Hin as [[= -> ->]|Hin];
      [discriminate|eauto].
Qed.

Lemma consistent_joinRoom issued s socket roomId callback :
  consistent issued s ->
  consistent issued (step s (EJoinRoom socket roomId callback)).
Proof.
  intros Hs. destruct (JsMap.get roomId (rooms s)) as [room|] eqn:Hget;
    [|now rewrite step_joinRoom_unknown].
  rewrite (step_joinRoom_stored _ socket _ callback _ Hget).
  destruct Hs as [[Hnd Hkey] Hiss Hgrp Hocc].
  pose proof (JsMapFacts.get_In _ _ _ Hget) as Hstored.
  split; cbn.
  - split; [now apply JsMapFacts.NoDup_keys_set|].
    intros k room' Hin. apply JsMapFacts.In_set in Hin as [[= -> ->]|Hin];
      [cbn; eauto|eauto].
  - intros k Hin. apply JsMapFacts.In_keys_set in Hin as [->|Hin]; [|auto].
    eapply Hiss, JsMapFacts.In_keys, Hstored.
  - intros c r Hin.
    assert (Hcases : (c, r) = (socket, roomId) \/ In (c, r) (memberships s)).
    { destruct (existsb _ _); [now right|].
      apply in_app_or in Hin as [Hin|[Heq|[]]]; auto. }
    destruct Hcases as [[= -> ->]|Hold].
    + eexists. rewrite JsMapFacts.get_set_same. split; [reflexivity|].
      unfold handles. cbn. rewrite map_app, in_app_iff. right. now left.
    + destruct (Hgrp _ _ Hold) as (room' & Hget' & Hc).
      destruct (string_dec r roomId) as [->|Hne].
      * eexists. rewrite JsMapFacts.get_set_same. split; [reflexivity|].
        unfold handles. cbn. rewrite map_app, in_app_iff. left.
        replace room with room' by congruence. exact Hc.
      * exists room'. now rewrite JsMapFacts.get_set_other.
  - intros k room' Hin. apply JsMapFacts.In_set in Hin as [[= -> ->]|Hin];
      [cbn; now destruct (Room.players room)|eauto].
Qed.

Lemma consistent_disconnect issued s socket :
  consistent issued s -> consistent issued (step s (EDisconnect socket)).
Proof.
  intros [Hwk Hiss Hgrp Hocc]. unfold step. rewrite handle_disconnect.
  pose proof Hwk as [Hnd Hkey]. split; cbn.
  - split; [now apply JsMapFacts.NoDup_keys_filter|].
    intros k room Hin. apply filter_In in Hin as [Hin _]. eauto.
  - intros k Hin. apply Hiss. unfold JsMap.keys in *.
    apply in_map_iff in Hin as (e & <- & He).
    apply filter_In in He as [He _]. now apply in_map.
  - intros c r Hin. apply filter_In in Hin as [Hin Hne]. cbn in Hne.
    apply negb_true_iff, String.eqb_neq in Hne.
    destruct (Hgrp _ _ Hin) as (room & Hget & Hc).
    exists room. split; [|assumption].
    rewrite (JsMapFacts.get_filter_keys
               (outlives socket (JsMap.values (rooms s)))).
    now rewrite (outlives_listed s socket r room c Hwk Hget Hc Hne).
  - intros k room Hin. apply filter_In in Hin as [Hin _]. eauto.
Qed.

Lemma consistent_closeRoom issued s socket roomId :
  consistent issued s -> consistent issued (step s (ECloseRoom socket roomId)).
Proof.
  intros [[Hnd Hkey] Hiss Hgrp Hocc]. unfold step. rewrite handle_closeRoom.
  split; cbn.
  - split; [now apply JsMapFacts.NoDup_keys_filter|].
    intros k room Hin. apply filter_In in Hin as [Hin _]. eauto.
  - intros k Hin. apply Hiss. unfold JsMap.keys, JsMap.delete in *.
    apply in_map_iff in Hin as (e & <- & He).
    apply filter_In in He as [He _]. now apply in_map.
  - intros c r Hin. apply filter_In in Hin as [Hin Hne]. cbn in Hne.
    apply negb_true_iff, String.eqb_neq in Hne.
    destruct (Hgrp _ _ Hin) as (room & Hget & Hc).
    exists room. now rewrite JsMapFacts.get_delete_other.
  - intros k room Hin. apply filter_In in Hin as [Hin _]. eauto.
Qed.

Lemma consistent_step issued s e :
  consistent issued s ->
  (forall uuid, In uuid (uuids [e]) -> ~ In uuid issued) ->
  consistent (issued ++ uuids [e]) (step s e).
Proof.
  intros Hs Hfresh. destruct e; cbn [uuids flat_map];
    rewrite ?app_nil_r.
  - destruct Hs. now split.
  - apply consistent_createRoom; [assumption|]. apply Hfresh. now left.
  - now apply consistent_joinRoom.
  - assumption.
  - now apply consistent_disconnect.
  - now apply consistent_closeRoom.
Qed.

Lemma run_snoc evs e s : run (evs ++ [e]) s = step (run evs s) e.
Proof. unfold run. now rewrite fold_left_app. Qed.

Lemma uuids_app evs evs' : uuids (evs ++ evs') = uuids evs ++ uuids evs'.
Proof. unfold uuids. now rewrite flat_map_app. Qed.

(** As long as [uuidV4()] does not repeat itself, every state the server
    reaches is consistent. *)
Lemma consistent_run evs :
  NoDup (uuids evs) -> consistent (uuids evs) (run evs initial).
Proof.
  induction evs as [|e evs IH] using rev_ind.
  - intros _. apply consistent_initial.
  - rewrite uuids_app, run_snoc. intros Hnd.
    apply consistent_step.
    + apply IH. now apply NoDup_app_remove_r in Hnd.
    + intros uuid Hin Hold. revert Hnd Hin Hold. clear.
      generalize (uuids evs) (uuids [e]). intros l l'.
      induction l as [|x l IH]; cbn; [tauto|].
      intros Hnd Hin [<-|Hold].
      * inversion Hnd; subst. rewrite in_app_iff in *. tauto.
      * inversion Hnd; subst. auto.
Qed.

(** No room of a reachable state is empty: the lower bound of the
    capacity invariant holds. *)
Lemma stored_rooms_are_occupied evs roomId room :
  NoDup (uuids evs) ->
  JsMap.get roomId (rooms (run evs initial)) = Some room ->
  1 <= List.length (Room.players room).
Proof.
  intros Hnd Hget. apply consistent_run in Hnd.
  apply JsMapFacts.get_In in Hget. apply (cs_occupied _ _ Hnd) in Hget.
  destruct (Room.players room); [congruence|cbn; lia].
Qed.

(** ** [closeRoom] *)

(** C10. A [closeRoom] from any socket, for any roomId, never throws and
    deletes the entry under that roomId (if there is one) and no other;
    the listener does not look at who sends it, so this holds as well when
    the sender is not among the players of that room. *)
Theorem closeRoom_deletes_for_any_sender s socket roomId :
  let o := handle (ECloseRoom socket roomId) s in
  completion o = Returned tt /\
  rooms (final o) = JsMap.delete roomId (rooms s) /\
  JsMap.get roomId (rooms (final o)) = None /\
  (forall k, k <> roomId ->
     JsMap.get k (rooms (final o)) = JsMap.get k (rooms s)).
Proof.
  cbn zeta. rewrite handle_closeRoom. cbn [final completion rooms].
  split; [reflexivity|]. split; [reflexivity|].
  split; [apply JsMapFacts.get_delete_same|].
  intros k Hne. now apply JsMapFacts.get_delete_other.
Qed.

Example stranger_closes_room :
  listed "z" {| Room.roomId := "r1"; Room.players := [alice; bob] |} = false /\
  rooms (step playing (ECloseRoom "z" "r1")) = [] /\
  sent (handle (ECloseRoom "z" "r1") playing) =
    [ Deliver "a" "closeRoom" "r1" (PClose "r1");
      Deliver "b" "closeRoom" "r1" (PClose "r1") ].
Proof. repeat split. Qed.

(** Closing twice: the second [closeRoom] finds the group empty and the
    entry gone. *)
Lemma handle_closeRoom_again s socket socket' roomId :
  handle (ECloseRoom socket' roomId) (step s (ECloseRoom socket roomId)) =
  {| final := step s (ECloseRoom socket roomId); sent := [];
     completion := Returned tt |}.
Proof.
  unfold step. rewrite !handle_closeRoom. cbn [final rooms usernames memberships].
  unfold members. cbn [memberships]. unfold group.
  rewrite (filter_filter (fun p => String.eqb (snd p) roomId)).
  rewrite (filter_none (fun p : SocketId * RoomId =>
                          negb (String.eqb (snd p) roomId) &&
                          String.eqb (snd p) roomId));
    [|intros [c r] _; cbn; now destruct (String.eqb r roomId)].
  rewrite JsMapFacts.delete_absent by apply JsMapFacts.get_delete_same.
  rewrite filter_filter.
  rewrite (filter_ext (fun p : SocketId * RoomId =>
                         negb (String.eqb (snd p) roomId) &&
                         negb (String.eqb (snd p) roomId))
                      (fun p => negb (String.eqb (snd p) roomId)));
    [reflexivity|].
  intros [c r]. cbn. now destruct (String.eqb r roomId).
Qed.

(** C6, as the listener has it. A second [closeRoom] for the roomId of a
    first one does nothing, in every state and whoever sends either: no
    exception, no packet, the state as the first one left it. A
    [closeRoom] for a roomId without entry in the map does not throw and
    leaves the map as it is; it still sends [closeRoom] to every other
    socket of the group of that name and empties that group, so it does
    nothing exactly when that group has nobody in it. *)
Theorem closeRoom_again_or_absent s socket socket' roomId :
  let o := handle (ECloseRoom socket roomId) s in
  handle (ECloseRoom socket' roomId) (final o) =
    {| final := final o; sent := []; completion := Returned tt |} /\
  (JsMap.get roomId (rooms s) = None ->
   completion o = Returned tt /\
   rooms (final o) = rooms s /\
   usernames (final o) = usernames s /\
   sent o = map (fun c => Deliver c "closeRoom" roomId (PClose roomId))
                (others socket (members roomId s)) /\
   (members roomId s = [] ->
    o = {| final := s; sent := []; completion := Returned tt |})).
Proof.
  cbn zeta. split; [apply handle_closeRoom_again|].
  intros Habsent. rewrite handle_closeRoom.
  cbn [final sent completion rooms usernames].
  rewrite JsMapFacts.delete_absent by assumption.
  repeat split. intros Hnobody. rewrite Hnobody. cbn [others filter map].
  rewrite filter_all; [now destruct s|].
  intros [c r] Hin. cbn. apply negb_true_iff, String.eqb_neq. intros ->.
  assert (Hc : In c (members roomId s)).
  { unfold members, group. apply in_map_iff. exists (c, roomId).
    split; [reflexivity|]. apply filter_In. cbn.
    now rewrite String.eqb_refl. }
  now rewrite Hnobody in Hc.
Qed.

Lemma closeRoom_again_or_absent_witness :
  handle (ECloseRoom "b" "r1") (final (handle (ECloseRoom "a" "r1") playing)) =
    {| final := final (handle (ECloseRoom "a" "r1") playing); sent := [];
       completion := Returned tt |} /\
  handle (ECloseRoom "b" "r2") playing =
    {| final := playing; sent := []; completion := Returned tt |}.
Proof.
  split.
  - exact (proj1 (closeRoom_again_or_absent playing "a" "b" "r1")).
  - destruct (proj2 (closeRoom_again_or_absent playing "b" "b" "r2") eq_refl)
      as (_ & _ & _ & _ & Hnoop).
    apply Hnoop. reflexivity.
Defined.

(** C6, as stated, fails: the id of a connected socket has no entry in
    the map, yet a [closeRoom] that names it reaches that socket and takes
    it out of its own group. *)
Lemma closeRoom_of_absent_id_reaches_a_socket :
  JsMap.get "a" (rooms two_connected) = None /\
  sent (handle (ECloseRoom "b" "a") two_connected) =
    [Deliver "a" "closeRoom" "a" (PClose "a")] /\
  members "a" (final (handle (ECloseRoom "b" "a") two_connected)) = [] /\
  final (handle (ECloseRoom "b" "a") two_connected) <> two_connected.
Proof. repeat split. discriminate. Qed.

(** ** [createRoom] *)

Lemma same_eq p q : same p q = true -> p = q.
Proof.
  destruct p, q. unfold same. cbn. rewrite andb_true_iff, !String.eqb_eq.
  now intros [-> ->].
Qed.

Lemma member_after_join socket room ms :
  In socket (group room (if existsb (same (socket, room)) ms then ms
                         else ms ++ [(socket, room)])).
Proof.
  unfold group. apply in_map_iff. exists (socket, room).
  split; [reflexivity|]. apply filter_In. cbn. rewrite String.eqb_refl.
  split; [|reflexivity].
  destruct (existsb _ ms) eqn:E.
  - apply existsb_exists in E as (p & Hin & Hsame).
    apply same_eq in Hsame. now subst.
  - apply in_or_app. right. now left.
Qed.

(** ** [disconnect] *)

Lemma filter_flat_map {A B} (f : B -> bool) (g : A -> list B) l :
  filter f (flat_map g l) = flat_map (fun x => filter f (g x)) l.
Proof.
  induction l as [|x l IH]; cbn; [reflexivity|].
  now rewrite filter_app, IH.
Qed.

Lemma flat_map_nil {A B} (g : A -> list B) l :
  (forall x, In x l -> g x = []) -> flat_map g l = [].
Proof.
  induction l as [|x l IH]; cbn; [reflexivity|].
  intros H. rewrite (H x) by now left. apply IH. auto.
Qed.

(** The packets sent for a room all go through the group of that room. *)
Lemma announced_via socket ms room r :
  filter (via r) (announced_on_disconnect socket ms room) =
  if String.eqb (Room.roomId room) r
  then announced_on_disconnect socket ms room else [].
Proof.
  unfold announced_on_disconnect.
  destruct (find _ _); [|now destruct (String.eqb _ r)].
  destruct (_ <? 2)%nat; [now destruct (String.eqb _ r)|].
  destruct (String.eqb (Room.roomId room) r) eqn:E.
  - apply filter_all. intros e He. apply in_map_iff in He as (c & <- & _).
    exact E.
  - apply filter_none. intros e He. apply in_map_iff in He as (c & <- & _).
    exact E.
Qed.

Lemma announced_for_one_room socket ms (m : JsMap.t Room.t) r room :
  well_keyed m -> JsMap.get r m = Some room ->
  filter (via r) (flat_map (announced_on_disconnect socket ms)
                           (JsMap.values m)) =
  announced_on_disconnect socket ms room.
Proof.
  rewrite filter_flat_map.
  induction m as [|[k x] m IH]; cbn; [discriminate|].
  intros [Hnd Hkey] Hget. inversion Hnd as [|? ? Hnotin Hnd']; subst.
  assert (Hwk : well_keyed m) by (split; [assumption|intros; apply Hkey; now right]).
  rewrite announced_via. rewrite (Hkey k x) by now left.
  destruct (String.eqb_spec k r) as [->|Hne].
  - injection Hget as ->. rewrite flat_map_nil; [apply app_nil_r|].
    intros x Hx. rewrite announced_via.
    apply values_In in Hx as [k Hk]. rewrite (Hkey k x) by now right.
    destruct (String.eqb_spec k r) as [->|]; [|reflexivity].
    exfalso. apply Hnotin. now apply JsMapFacts.In_keys with x.
  - cbn. now apply IH.
Qed.

Lemma group_leave_all socket r ms :
  others socket
    (group r (filter (fun p => negb (String.eqb (fst p) socket)) ms)) =
  others socket (group r ms).
Proof.
  unfold others, group. induction ms as [|[c r'] ms IH]; cbn; [reflexivity|].
  destruct (String.eqb c socket) eqn:Ec; cbn.
  - destruct (String.eqb r' r); cbn; [now rewrite Ec|assumption].
  - destruct (String.eqb r' r); cbn; [now rewrite Ec, IH|assumption].
Qed.

(** C3, as the listener has it. When a socket listed in a stored room
    disconnects: if the room has two players, one [playerDisconnected]
    carrying the first entry listed under that socket is sent through the
    room's group, that is to every socket still in the group, and the room
    stays in the map as it was; if the room has one player, the room is
    deleted and nothing is sent for it. The listener never throws. *)
Theorem disconnect_announces_or_deletes s socket roomId room userInRoom :
  well_keyed (rooms s) ->
  JsMap.get roomId (rooms s) = Some room ->
  find (fun player => String.eqb (Player.id player) socket)
       (Room.players room) = Some userInRoom ->
  let o := handle (EDisconnect socket) s in
  completion o = Returned tt /\
  (List.length (Room.players room) = 2 ->
   JsMap.get roomId (rooms (final o)) = Some room /\
   filter (via roomId) (sent o) =
     map (fun c => Deliver c "playerDisconnected" roomId (PPlayer userInRoom))
         (others socket (members roomId s))) /\
  (List.length (Room.players room) = 1 ->
   JsMap.get roomId (rooms (final o)) = None /\
   filter (via roomId) (sent o) = []).
Proof.
  intros Hwk Hget Hfind. cbn zeta. rewrite handle_disconnect.
  cbn [final sent completion rooms].
  rewrite (announced_for_one_room _ _ _ roomId room Hwk Hget).
  rewrite (JsMapFacts.get_filter_keys
             (outlives socket (JsMap.values (rooms s)))).
  pose proof Hwk as [Hnd Hkey].
  pose proof (JsMapFacts.get_In _ _ _ Hget) as Hstored.
  pose proof (Hkey _ _ Hstored) as Hid.
  unfold announced_on_disconnect. rewrite Hfind, Hid.
  split; [reflexivity|]. split; intros Hlen; rewrite Hlen; cbn [Nat.ltb Nat.leb].
  - split; [|now rewrite group_leave_all].
    replace (outlives _ _ _) with true; [assumption|].
    symmetry. apply forallb_forall. intros x Hx.
    apply negb_true_iff, not_true_is_false. intros Hboth.
    apply andb_true_iff in Hboth as [Hdel Heq]. apply String.eqb_eq in Heq.
    apply values_In in Hx as [k Hk]. pose proof (Hkey _ _ Hk) as Hidx.
    assert (x = room) as ->.
    { apply (JsMapFacts.In_get _ _ _ Hnd) in Hk. congruence. }
    unfold deleted_on_disconnect in Hdel. now rewrite Hfind, Hlen in Hdel.
  - split; [|reflexivity].
    destruct (outlives _ _ _) eqn:E; [|reflexivity].
    unfold outlives in E. rewrite forallb_forall in E.
    specialize (E room). unfold deleted_on_disconnect in E.
    rewrite Hfind, Hlen, Hid, String.eqb_refl in E. cbn in E.
    enough (false = true) by discriminate. apply E.
    unfold JsMap.values. apply in_map_iff. now exists (roomId, room).
Qed.

Lemma playing_well_keyed : well_keyed (rooms playing).
Proof.
  split.
  - cbn. repeat constructor. intros [].
  - cbn. intros k room [[= <- <-]|[]]. reflexivity.
Defined.

Lemma disconnect_announces_or_deletes_witness :
  JsMap.get "r1" (rooms (final (handle (EDisconnect "a") playing))) =
    Some {| Room.roomId := "r1"; Room.players := [alice; bob] |} /\
  filter (via "r1") (sent (handle (EDisconnect "a") playing)) =
    [Deliver "b" "playerDisconnected" "r1" (PPlayer alice)].
Proof.
  apply (disconnect_announces_or_deletes playing "a" "r1"
           {| Room.roomId := "r1"; Room.players := [alice; bob] |} alice
           playing_well_keyed eq_refl eq_refl).
  reflexivity.
Defined.

(** C3, as stated, fails on the two-player room of the scenario: after
    the disconnect of one of its players the room is still in the map. *)
Lemma disconnect_keeps_two_player_room :
  JsMap.get "r1" (rooms playing) =
    Some {| Room.roomId := "r1"; Room.players := [alice; bob] |} /\
  listed "a" {| Room.roomId := "r1"; Room.players := [alice; bob] |} = true /\
  JsMap.get "r1" (rooms (step playing (EDisconnect "a"))) <> None.
Proof. repeat split. discriminate. Qed.

(** ** Handles within one room *)

Lemma listed_handles socket room :
  listed socket room = false -> ~ In socket (handles room).
Proof.
  unfold listed, handles. intros Hnot Hin.
  apply in_map_iff in Hin as (p & Hid & Hp).
  enough (existsb (fun player => String.eqb (Player.id player) socket)
                  (Room.players room) = true) by congruence.
  apply existsb_exists. exists p. split; [assumption|].
  now apply String.eqb_eq.
Qed.

Lemma distinct_handles_step s e :
  (forall k room, In (k, room) (rooms s) -> NoDup (handles room)) ->
  newcomer s e = true ->
  forall k room, In (k, room) (rooms (step s e)) -> NoDup (handles room).
Proof.
  intros Hs Hnew k room. destruct e as [sk name|sk cb uuid|sk r cb|sk r mv|sk|sk r].
  - rewrite step_username. apply Hs.
  - rewrite step_createRoom. cbn [rooms]. intros Hin.
    apply JsMapFacts.In_set in Hin as [[= -> ->]|Hin]; [|eauto].
    cbn. repeat constructor. intros [].
  - cbn in Hnew. destruct (JsMap.get r (rooms s)) as [room0|] eqn:Hget.
    + rewrite (step_joinRoom_stored _ sk _ cb _ Hget). cbn [rooms].
      intros Hin. apply JsMapFacts.In_set in Hin as [[= -> ->]|Hin]; [|eauto].
      unfold handles. cbn. rewrite map_app. cbn.
      apply negb_true_iff, listed_handles in Hnew.
      apply JsMapFacts.get_In, Hs in Hget.
      apply NoDup_app; [assumption|repeat constructor; intros []|].
      intros x Hx [<-|[]]. now apply Hnew.
    + rewrite step_joinRoom_unknown by assumption. apply Hs.
  - rewrite step_move. apply Hs.
  - unfold step. rewrite handle_disconnect. cbn. intros Hin.
    apply filter_In in Hin as [Hin _]. eauto.
  - unfold step. rewrite handle_closeRoom. cbn. intros Hin.
    apply filter_In in Hin as [Hin _]. eauto.
Qed.

Lemma distinct_handles_run evs s :
  (forall k room, In (k, room) (rooms s) -> NoDup (handles room)) ->
  newcomers_only evs s = true ->
  forall k room, In (k, room) (rooms (run evs s)) -> NoDup (handles room).
Proof.
  revert s. induction evs as [|e evs IH]; intros s Hs Hnew; [exact Hs|].
  cbn in Hnew. apply andb_true_iff in Hnew as [He Hrest].
  apply (IH (step s e)); [|assumption].
  now apply distinct_handles_step.
Qed.

(** C9, as the listeners have it. Along every run in which no socket sends
    [joinRoom] for a room that lists it already, no stored room lists a
    socket id twice. *)
Theorem handles_distinct_without_rejoin evs roomId room :
  newcomers_only evs initial = true ->
  JsMap.get roomId (rooms (run evs initial)) = Some room ->
  NoDup (handles room).
Proof.
  intros Hnew Hget. apply JsMapFacts.get_In in Hget.
  apply (distinct_handles_run evs initial) with (k := roomId);
    [intros ? ? []|assumption|assumption].
Qed.

Lemma handles_distinct_without_rejoin_witness :
  NoDup (handles {| Room.roomId := "r1"; Room.players := [alice; bob] |}).
Proof.
  apply (handles_distinct_without_rejoin two_players "r1"); reflexivity.
Defined.

(** C9, as stated, fails: a socket that creates a room and then sends
    [joinRoom] for it is listed twice. *)
Lemma creator_joins_own_room_twice_listed :
  JsMap.get "r1" (rooms (run joins_own_room initial)) =
    Some {| Room.roomId := "r1";
            Room.players :=
              [alice; {| Player.id := "a";
                         Player.username := Some "alice" |}] |} /\
  ~ NoDup (handles {| Room.roomId := "r1";
                      Room.players :=
                        [alice; {| Player.id := "a";
                                   Player.username := Some "alice" |}] |}).
Proof.
  split; [reflexivity|]. cbn. intros Hnd.
  inversion Hnd as [|? ? Hnotin _]. apply Hnotin. now left.
Qed.

(** * Further properties of the listeners *)

(** ** Exceptions and error replies *)

(** X1. Among the requests that come with their payload object and with
    an acknowledgement that is a function or is absent, a listener throws
    exactly in two cases, both the call of the absent callback: a
    [createRoom] without callback, and a [joinRoom] without callback for a
    roomId that has an entry in the map. *)
Theorem listener_throws_iff_callback_missing s e err :
  completion (handle e s) = Thrown err <->
  err = "TypeError: callback is not a function" /\
  ((exists socket uuid, e = ECreateRoom socket NoCallback uuid) \/
   (exists socket roomId room,
      e = EJoinRoom socket roomId NoCallback /\
      JsMap.get roomId (rooms s) = Some room)).
Proof.
  split.
  - destruct e as [sk name|sk cb uuid|sk r cb|sk r mv|sk|sk r].
    + discriminate.
    + destruct cb; cbn; [|discriminate].
      intros [= <-]. split; [reflexivity|]. left. eauto.
    + destruct (JsMap.get r (rooms s)) as [room|] eqn:Hget.
      * cbn [handle]. unfold joinRoom, bind, rooms_get, gets. cbn.
        rewrite Hget. destruct cb; cbn; [|discriminate].
        intros [= <-]. split; [reflexivity|]. right. eauto.
      * rewrite handle_joinRoom_unknown by assumption. discriminate.
    + discriminate.
    + rewrite handle_disconnect. discriminate.
    + rewrite handle_closeRoom. discriminate.
  - intros [-> [(sk & uuid & ->)|(sk & r & room & -> & Hget)]].
    + reflexivity.
    + cbn [handle]. unfold joinRoom, bind, rooms_get, gets. cbn.
      now rewrite Hget.
Qed.

Lemma announced_are_deliveries socket ms room e :
  In e (announced_on_disconnect socket ms room) ->
  exists c payload, e = Deliver c "playerDisconnected" (Room.roomId room) payload.
Proof.
  unfold announced_on_disconnect. destruct (find _ _); [|intros []].
  destruct (_ <? 2)%nat; [intros []|].
  intros Hin. apply in_map_iff in Hin as (c & <- & _). eauto.
Qed.

Lemma group_after_join socket room ms :
  others socket (group room (if existsb (same (socket, room)) ms then ms
                             else ms ++ [(socket, room)])) =
  others socket (group room ms).
Proof.
  destruct (existsb _ ms); [reflexivity|].
  unfold others, group. rewrite filter_app, map_app, filter_app. cbn.
  rewrite !String.eqb_refl. cbn. rewrite String.eqb_refl. cbn.
  apply app_nil_r.
Qed.

(** The whole outcome of a [joinRoom] with callback for a stored room. *)
Lemma handle_joinRoom_stored s socket roomId room :
  JsMap.get roomId (rooms s) = Some room ->
  let roomUpdate :=
    {| Room.roomId := Room.roomId room;
       Room.players := Room.players room ++
         [ {| Player.id := socket;
              Player.username := username_of socket s |} ] |} in
  handle (EJoinRoom socket roomId AckFn) s =
  {| final := step s (EJoinRoom socket roomId AckFn);
     sent := Ack socket (RRoom roomUpdate) ::
             map (fun c => Deliver c "opponentJoined" roomId (PRoom roomUpdate))
                 (others socket (members roomId s));
     completion := Returned tt |}.
Proof.
  intros Hget roomUpdate. unfold step. cbn [handle].
  unfold joinRoom, bind, rooms_get, gets. cbn. rewrite Hget. cbn.
  pose proof (group_after_join socket roomId (memberships s)) as Hg.
  unfold others, group in Hg. rewrite Hg. reflexivity.
Qed.

(** X2. The only error a listener ever reports is 'room does not exist', to a
    [joinRoom] for a roomId without entry: neither 'room is empty' nor
    'room is full' is ever sent. *)
Theorem only_error_reply_is_unknown_room s e socket error message :
  In (Ack socket (RError error message)) (sent (handle e s)) ->
  error = true /\ message = "room does not exist" /\
  exists roomId, e = EJoinRoom socket roomId AckFn /\
                 JsMap.get roomId (rooms s) = None.
Proof.
  destruct e as [sk name|sk cb uuid|sk r cb|sk r mv|sk|sk r].
  - intros [].
  - destruct cb; cbn; [tauto|]. intros [[=]|[]].
  - destruct (JsMap.get r (rooms s)) as [room|] eqn:Hget.
    + destruct cb.
      * cbn [handle]. unfold joinRoom, bind, rooms_get, gets. cbn.
        rewrite Hget. cbn. tauto.
      * rewrite (handle_joinRoom_stored s sk r room Hget). cbn.
        intros [[=]|Hin]. apply in_map_iff in Hin as (c & [=] & _).
    + rewrite handle_joinRoom_unknown by assumption. cbn.
      destruct cb; cbn; [tauto|]. intros [[= <- <- <-]|[]].
      repeat split. now exists r.
  - cbn. intros Hin. apply in_map_iff in Hin as (c & [=] & _).
  - rewrite handle_disconnect. cbn. intros Hin.
    apply in_flat_map in Hin as (room & _ & Hin).
    apply announced_are_deliveries in Hin as (c & payload & [=]).
  - rewrite handle_closeRoom. cbn. intros Hin.
    apply in_map_iff in Hin as (c & [=] & _).
Qed.

Lemma only_error_reply_is_unknown_room_witness :
  true = true /\ "room does not exist" = "room does not exist" /\
  exists roomId, EJoinRoom "c" "r2" AckFn = EJoinRoom "c" roomId AckFn /\
                 JsMap.get roomId (rooms playing) = None.
Proof.
  apply (only_error_reply_is_unknown_room playing (EJoinRoom "c" "r2" AckFn)
           "c" true "room does not exist").
  cbn. now left.
Defined.

(** ** [joinRoom] for a stored room *)

Lemma group_joined socket room room' ms :
  group room' (if existsb (same (socket, room)) ms then ms
               else ms ++ [(socket, room)]) =
  if String.eqb room room'
  then (if existsb (same (socket, room)) ms then group room' ms
        else group room' ms ++ [socket])
  else group room' ms.
Proof.
  destruct (existsb _ ms); [now destruct (String.eqb room room')|].
  unfold group. rewrite filter_app, map_app. cbn.
  destruct (String.eqb room room'); cbn; [reflexivity|apply app_nil_r].
Qed.

(** X3. A [joinRoom] with callback for a stored room answers the sender first,
    with the room as stored from then on (the sender appended last, under
    the same roomId), then sends that same room as [opponentJoined] once
    to every other socket of the group and not to the sender; the sender
    is in the group afterwards and no other room is touched. *)
Theorem joinRoom_answers_then_notifies_the_others s socket roomId room :
  JsMap.get roomId (rooms s) = Some room ->
  let o := handle (EJoinRoom socket roomId AckFn) s in
  let roomUpdate :=
    {| Room.roomId := Room.roomId room;
       Room.players := Room.players room ++
         [ {| Player.id := socket;
              Player.username := username_of socket s |} ] |} in
  completion o = Returned tt /\
  sent o = Ack socket (RRoom roomUpdate) ::
           map (fun c => Deliver c "opponentJoined" roomId (PRoom roomUpdate))
               (others socket (members roomId s)) /\
  (forall event payload, ~ In (Deliver socket event roomId payload) (sent o)) /\
  JsMap.get roomId (rooms (final o)) = Some roomUpdate /\
  (forall k, k <> roomId ->
     JsMap.get k (rooms (final o)) = JsMap.get k (rooms s)) /\
  In socket (members roomId (final o)).
Proof.
  intros Hget o roomUpdate. unfold o.
  rewrite (handle_joinRoom_stored s socket roomId room Hget).
  cbn [final sent completion].
  rewrite (step_joinRoom_stored s socket roomId AckFn room Hget).
  cbn [rooms]. split; [reflexivity|]. split; [reflexivity|].
  split; [|split; [apply JsMapFacts.get_set_same|split]].
  - intros event payload [[=]|Hin].
    apply in_map_iff in Hin as (c & [= -> _ _] & Hc).
    apply mem_others in Hc. now destruct Hc.
  - intros k Hne. now apply JsMapFacts.get_set_other.
  - apply member_after_join.
Qed.

Lemma joinRoom_answers_then_notifies_the_others_witness :
  sent (handle (EJoinRoom "b" "r1" AckFn) waiting) =
  [ Ack "b" (RRoom {| Room.roomId := "r1";
                      Room.players :=
                        [alice; {| Player.id := "b";
                                   Player.username := None |}] |});
    Deliver "a" "opponentJoined" "r1"
      (PRoom {| Room.roomId := "r1";
                Room.players :=
                  [alice; {| Player.id := "b";
                             Player.username := None |}] |}) ].
Proof.
  exact (proj1 (proj2 (joinRoom_answers_then_notifies_the_others
                         waiting "b" "r1"
                         {| Room.roomId := "r1"; Room.players := [alice] |}
                         eq_refl))).
Defined.

(** X4. A [joinRoom] without callback for a stored room changes the state
    exactly as the same request with a callback does, then throws: the
    sender is stored and in the group, and nobody is told. *)
Theorem joinRoom_without_callback_joins_silently s socket roomId room :
  JsMap.get roomId (rooms s) = Some room ->
  let o := handle (EJoinRoom socket roomId NoCallback) s in
  final o = final (handle (EJoinRoom socket roomId AckFn) s) /\
  sent o = [] /\
  completion o = Thrown "TypeError: callback is not a function" /\
  In socket (members roomId (final o)) /\
  exists room', JsMap.get roomId (rooms (final o)) = Some room' /\
                In socket (handles room').
Proof.
  intros Hget o.
  assert (Hfinal : final o = step s (EJoinRoom socket roomId AckFn)).
  { change (final o) with (step s (EJoinRoom socket roomId NoCallback)).
    now rewrite !(step_joinRoom_stored s socket roomId _ room Hget). }
  split; [exact Hfinal|]. rewrite Hfinal.
  rewrite (step_joinRoom_stored s socket roomId AckFn room Hget).
  cbn [rooms]. unfold o. cbn [handle].
  unfold joinRoom, bind, rooms_get, gets. cbn. rewrite Hget. cbn.
  split; [reflexivity|]. split; [reflexivity|].
  split; [apply member_after_join|].
  eexists. split; [apply JsMapFacts.get_set_same|].
  unfold handles. cbn. rewrite map_app, in_app_iff. right. now left.
Qed.

Lemma joinRoom_without_callback_joins_silently_witness :
  final (handle (EJoinRoom "b" "r1" NoCallback) waiting) =
  final (handle (EJoinRoom "b" "r1" AckFn) waiting) /\
  sent (handle (EJoinRoom "b" "r1" NoCallback) waiting) = [].
Proof.
  pose proof (joinRoom_without_callback_joins_silently waiting "b" "r1"
                {| Room.roomId := "r1"; Room.players := [alice] |} eq_refl)
    as (Hfinal & Hsent & _).
  split; [exact Hfinal|exact Hsent].
Defined.

(** ** How a stored room changes *)

(** X5. No listener removes or reorders the players of a room that stays in
    the map: under any event that does not draw the room's identifier
    anew, a room still stored afterwards has the same roomId and the same
    players, followed by at most one more. *)
Theorem players_only_appended s e roomId room room' :
  JsMap.get roomId (rooms s) = Some room ->
  JsMap.get roomId (rooms (step s e)) = Some room' ->
  ~ In roomId (uuids [e]) ->
  Room.roomId room' = Room.roomId room /\
  exists joined, Room.players room' = Room.players room ++ joined /\
                 List.length joined <= 1.
Proof.
  intros Hget Hget' Hnew.
  assert (Hsame : room' = room ->
            Room.roomId room' = Room.roomId room /\
            exists joined, Room.players room' = Room.players room ++ joined /\
                           List.length joined <= 1).
  { intros ->. split; [reflexivity|]. exists []. rewrite app_nil_r.
    split; [reflexivity|cbn; lia]. }
  destruct e as [sk name|sk cb uuid|sk r cb|sk r mv|sk|sk r].
  - rewrite step_username in Hget'. cbn in Hget'. apply Hsame. congruence.
  - rewrite step_createRoom in Hget'. cbn [rooms] in Hget'.
    rewrite JsMapFacts.get_set_other in Hget'; [apply Hsame; congruence|].
    intros ->. apply Hnew. now left.
  - destruct (JsMap.get r (rooms s)) as [room0|] eqn:Hr.
    + rewrite (step_joinRoom_stored s sk r cb room0 Hr) in Hget'.
      cbn [rooms] in Hget'. destruct (string_dec roomId r) as [->|Hne].
      * rewrite JsMapFacts.get_set_same in Hget'. injection Hget' as <-.
        replace room0 with room by congruence. cbn.
        split; [reflexivity|]. eexists. split; [reflexivity|]. cbn. lia.
      * rewrite JsMapFacts.get_set_other in Hget' by assumption.
        apply Hsame. congruence.
    + rewrite step_joinRoom_unknown in Hget' by assumption.
      apply Hsame. congruence.
  - rewrite step_move in Hget'. apply Hsame. congruence.
  - unfold step in Hget'. rewrite handle_disconnect in Hget'.
    cbn [final rooms] in Hget'.
    rewrite (JsMapFacts.get_filter_keys
               (outlives sk (JsMap.values (rooms s)))) in Hget'.
    destruct (outlives _ _ _); [|discriminate]. apply Hsame. congruence.
  - unfold step in Hget'. rewrite handle_closeRoom in Hget'.
    cbn [final rooms] in Hget'.
    destruct (string_dec roomId r) as [->|Hne].
    + now rewrite JsMapFacts.get_delete_same in Hget'.
    + rewrite JsMapFacts.get_delete_other in Hget' by assumption.
      apply Hsame. congruence.
Qed.

Lemma players_only_appended_witness :
  Room.roomId {| Room.roomId := "r1"; Room.players := [alice; bob] |} =
  Room.roomId {| Room.roomId := "r1"; Room.players := [alice] |} /\
  exists joined, [alice; bob] = [alice] ++ joined /\ List.length joined <= 1.
Proof.
  apply (players_only_appended
           (run (one_player ++ [EUsername "b" "bob"]) initial)
           (EJoinRoom "b" "r1" AckFn) "r1"
           {| Room.roomId := "r1"; Room.players := [alice] |}
           {| Room.roomId := "r1"; Room.players := [alice; bob] |}
           eq_refl eq_refl).
  cbn. tauto.
Defined.

(** ** Invariants of the map *)

Lemma entries_step (P : RoomId -> Room.t -> Prop) s e :
  (forall k room, In (k, room) (rooms s) -> P k room) ->
  (forall socket callback uuid name,
     e = ECreateRoom socket callback uuid ->
     P uuid {| Room.roomId := uuid;
               Room.players := [ {| Player.id := socket;
                                    Player.username := name |} ] |}) ->
  (forall socket roomId callback room name,
     e = EJoinRoom socket roomId callback ->
     In (roomId, room) (rooms s) -> P roomId room ->
     P roomId {| Room.roomId := Room.roomId room;
                 Room.players := Room.players room ++
                   [ {| Player.id := socket; Player.username := name |} ] |}) ->
  forall k room, In (k, room) (rooms (step s e)) -> P k room.
Proof.
  intros Hs Hcreate Hjoin k room.
  destruct e as [sk name|sk cb uuid|sk r cb|sk r mv|sk|sk r].
  - rewrite step_username. apply Hs.
  - rewrite step_createRoom. cbn [rooms]. intros Hin.
    apply JsMapFacts.In_set in Hin as [[= -> ->]|Hin]; eauto.
  - destruct (JsMap.get r (rooms s)) as [room0|] eqn:Hget.
    + rewrite (step_joinRoom_stored s sk r cb room0 Hget). cbn [rooms].
      intros Hin. apply JsMapFacts.In_set in Hin as [[= -> ->]|Hin]; [|eauto].
      apply JsMapFacts.get_In in Hget. eapply Hjoin; eauto.
    + rewrite step_joinRoom_unknown by assumption. apply Hs.
  - rewrite step_move. apply Hs.
  - unfold step. rewrite handle_disconnect. cbn. intros Hin.
    apply filter_In in Hin as [Hin _]. eauto.
  - unfold step. rewrite handle_closeRoom. cbn. intros Hin.
    apply filter_In in Hin as [Hin _]. eauto.
Qed.

Lemma entries_run s evs :
  (forall k room, In (k, room) (rooms s) ->
     Room.roomId room = k /\ Room.players room <> []) ->
  forall k room, In (k, room) (rooms (run evs s)) ->
    Room.roomId room = k /\ Room.players room <> [] /\
    (In (k, room) (rooms s) \/ In k (uuids evs) \/
     exists room0, In (k, room0) (rooms s)).
Proof.
  induction evs as [|e evs IH] using rev_ind; intros Hs k room.
  - cbn. intros Hin. destruct (Hs _ _ Hin). auto.
  - rewrite run_snoc, uuids_app.
    apply (entries_step (fun k room =>
             Room.roomId room = k /\ Room.players room <> [] /\
             (In (k, room) (rooms s) \/ In k (uuids evs ++ uuids [e]) \/
              exists room0, In (k, room0) (rooms s)))).
    + intros k' room' Hin. destruct (IH Hs _ _ Hin) as (? & ? & Hor).
      repeat split; try assumption. rewrite in_app_iff. tauto.
    + intros sk cb uuid name ->. cbn. repeat split; [discriminate|].
      right. left. apply in_or_app. right. now left.
    + intros sk r cb room0 name -> Hin (Hid & Hocc & Hor). cbn.
      repeat split; [assumption|now destruct (Room.players room0)|].
      destruct Hor as [Hor|[Hor|Hor]]; [right; right; eauto|tauto|tauto].
Qed.

(** X6. Every room of the map sits under the roomId it carries, and that
    roomId is one [uuidV4()] returned to a [createRoom] earlier in the
    run; a [joinRoom] never creates an entry. *)
Theorem stored_under_own_issued_roomId evs roomId room :
  JsMap.get roomId (rooms (run evs initial)) = Some room ->
  Room.roomId room = roomId /\ In roomId (uuids evs).
Proof.
  intros Hget. apply JsMapFacts.get_In in Hget.
  destruct (entries_run initial evs) with (k := roomId) (room := room)
    as (Hid & _ & Hor); [intros ? ? []|assumption|].
  split; [assumption|]. destruct Hor as [[]|[Hin|[room0 []]]]. assumption.
Qed.

Lemma stored_under_own_issued_roomId_witness :
  Room.roomId {| Room.roomId := "r1"; Room.players := [alice; bob] |} = "r1" /\
  In "r1" (uuids two_players).
Proof.
  apply (stored_under_own_issued_roomId two_players "r1"). reflexivity.
Defined.

(** X7. No room of the map is ever empty, whatever the run: a room is stored
    with its creator, players are only appended, and a room goes as a
    whole. *)
Theorem stored_room_never_empty evs roomId room :
  JsMap.get roomId (rooms (run evs initial)) = Some room ->
  1 <= List.length (Room.players room).
Proof.
  intros Hget. apply JsMapFacts.get_In in Hget.
  destruct (entries_run initial evs) with (k := roomId) (room := room)
    as (_ & Hocc & _); [intros ? ? []|assumption|].
  destruct (Room.players room); [congruence|cbn; lia].
Qed.

Lemma stored_room_never_empty_witness :
  1 <= List.length
         (Room.players {| Room.roomId := "r1"; Room.players := [alice] |}).
Proof.
  apply (stored_room_never_empty
           (two_players ++ [EDisconnect "b"; ECreateRoom "a" AckFn "r1"]) "r1").
  reflexivity.
Defined.

Lemma in_group c r ms : In c (group r ms) <-> In (c, r) ms.
Proof.
  unfold group. rewrite in_map_iff. split.
  - intros ([c' r'] & <- & Hin). apply filter_In in Hin as [Hin Heq].
    cbn in *. apply String.eqb_eq in Heq. now subst.
  - intros Hin. exists (c, r). split; [reflexivity|].
    apply filter_In. cbn. now rewrite String.eqb_refl.
Qed.

(** X8. As long as [uuidV4()] does not repeat itself, every socket in the
    group of a stored room is listed among the players of that room. *)
Theorem group_members_are_listed evs roomId room c :
  NoDup (uuids evs) ->
  JsMap.get roomId (rooms (run evs initial)) = Some room ->
  In c (members roomId (run evs initial)) ->
  In c (handles room).
Proof.
  intros Hnd Hget Hin. apply consistent_run in Hnd.
  apply in_group in Hin.
  destruct (cs_groups _ _ Hnd _ _ Hin) as (room' & Hget' & Hc). congruence.
Qed.

Lemma group_members_are_listed_witness :
  In "b" (handles {| Room.roomId := "r1"; Room.players := [alice; bob] |}).
Proof.
  apply (group_members_are_listed two_players "r1"
           {| Room.roomId := "r1"; Room.players := [alice; bob] |} "b").
  - cbn. repeat constructor. intros [].
  - reflexivity.
  - cbn. tauto.
Defined.

(** ** [disconnect], further *)

Lemma find_unlisted socket room :
  listed socket room = false ->
  find (fun player => String.eqb (Player.id player) socket)
       (Room.players room) = None.
Proof.
  unfold listed. induction (Room.players room) as [|p l IH]; cbn;
    [reflexivity|].
  destruct (String.eqb (Player.id p) socket); [discriminate|exact IH].
Qed.

(** X9. The disconnect of a socket that no stored room lists leaves the map
    as it is, sends nothing and does not throw. *)
Theorem disconnect_of_unlisted_socket s socket :
  (forall k room, In (k, room) (rooms s) -> listed socket room = false) ->
  let o := handle (EDisconnect socket) s in
  rooms (final o) = rooms s /\ usernames (final o) = usernames s /\
  sent o = [] /\ completion o = Returned tt.
Proof.
  intros Hnone. cbn zeta. rewrite handle_disconnect.
  cbn [final sent completion rooms usernames].
  assert (Hvalues : forall room, In room (JsMap.values (rooms s)) ->
                      listed socket room = false).
  { intros room Hin. apply values_In in Hin as [k Hk]. eauto. }
  repeat split.
  - apply filter_all. intros [k room] _. cbn. apply forallb_forall.
    intros x Hx. unfold deleted_on_disconnect.
    now rewrite (find_unlisted socket x (Hvalues x Hx)).
  - apply flat_map_nil. intros x Hx. unfold announced_on_disconnect.
    now rewrite (find_unlisted socket x (Hvalues x Hx)).
Qed.

Lemma disconnect_of_unlisted_socket_witness :
  rooms (final (handle (EDisconnect "z") playing)) = rooms playing /\
  sent (handle (EDisconnect "z") playing) = [].
Proof.
  assert (Hnone : forall k room, In (k, room) (rooms playing) ->
                    listed "z" room = false).
  { cbn. intros k room [[= <- <-]|[]]. reflexivity. }
  pose proof (disconnect_of_unlisted_socket playing "z" Hnone)
    as (Hrooms & _ & Hsent & _).
  split; [exact Hrooms|exact Hsent].
Defined.

Lemma well_keyed_filter (f : RoomId * Room.t -> bool) m :
  well_keyed m -> well_keyed (filter f m).
Proof.
  intros [Hnd Hkey]. split; [now apply JsMapFacts.NoDup_keys_filter|].
  intros k room Hin. apply filter_In in Hin as [Hin _]. eauto.
Qed.

Lemma two_player_room_outlives s socket roomId room :
  well_keyed (rooms s) ->
  JsMap.get roomId (rooms s) = Some room ->
  2 <= List.length (Room.players room) ->
  JsMap.get roomId (rooms (step s (EDisconnect socket))) = Some room.
Proof.
  intros [Hnd Hkey] Hget Hlen. unfold step. rewrite handle_disconnect.
  cbn [final rooms].
  rewrite (JsMapFacts.get_filter_keys
             (outlives socket (JsMap.values (rooms s)))).
  replace (outlives _ _ _) with true; [assumption|].
  symmetry. apply forallb_forall. intros x Hx.
  apply negb_true_iff, not_true_is_false. intros Hboth.
  apply andb_true_iff in Hboth as [Hdel Heq]. apply String.eqb_eq in Heq.
  apply values_In in Hx as [k Hk]. pose proof (Hkey _ _ Hk) as Hid.
  assert (x = room) as ->.
  { apply (JsMapFacts.In_get _ _ _ Hnd) in Hk. congruence. }
  unfold deleted_on_disconnect in Hdel. destruct (find _ _); [|discriminate].
  apply Nat.ltb_lt in Hdel. lia.
Qed.

(** X10. No sequence of disconnects removes a room that stores two players or
    more, not even the disconnect of all of them: such a room leaves the
    map through [closeRoom] only. *)
Theorem disconnects_never_remove_a_full_room s sockets roomId room :
  well_keyed (rooms s) ->
  JsMap.get roomId (rooms s) = Some room ->
  2 <= List.length (Room.players room) ->
  JsMap.get roomId (rooms (run (map EDisconnect sockets) s)) = Some room.
Proof.
  revert s. induction sockets as [|sk l IH]; intros s Hwk Hget Hlen;
    [assumption|].
  change (run (map EDisconnect (sk :: l)) s)
    with (run (map EDisconnect l) (step s (EDisconnect sk))).
  apply IH; [|now apply two_player_room_outlives|assumption].
  unfold step. rewrite handle_disconnect. cbn [final rooms].
  now apply well_keyed_filter.
Qed.

Lemma disconnects_never_remove_a_full_room_witness :
  JsMap.get "r1" (rooms (run (map EDisconnect ["a"; "b"]) playing)) =
  Some {| Room.roomId := "r1"; Room.players := [alice; bob] |}.
Proof.
  apply (disconnects_never_remove_a_full_room playing ["a"; "b"] "r1"
           {| Room.roomId := "r1"; Room.players := [alice; bob] |}
           playing_well_keyed eq_refl).
  cbn. lia.
Defined.

(** X11. After a player of a room with two players or more has disconnected,
    a [joinRoom] for that room is still accepted, and the room answered
    to the newcomer still lists the player who left. *)
Theorem joinRoom_after_disconnect_lists_the_departed
  s departed socket roomId room :
  well_keyed (rooms s) ->
  JsMap.get roomId (rooms s) = Some room ->
  2 <= List.length (Room.players room) ->
  In departed (handles room) ->
  departed <> socket ->
  let o := handle (EJoinRoom socket roomId AckFn)
                  (step s (EDisconnect departed)) in
  let roomUpdate :=
    {| Room.roomId := Room.roomId room;
       Room.players := Room.players room ++
         [ {| Player.id := socket;
              Player.username := username_of socket s |} ] |} in
  In (Ack socket (RRoom roomUpdate)) (sent o) /\
  JsMap.get roomId (rooms (final o)) = Some roomUpdate /\
  In departed (handles roomUpdate) /\
  ~ In departed (members roomId (final o)).
Proof.
  intros Hwk Hget Hlen Hlisted Hne o roomUpdate.
  pose proof (two_player_room_outlives s departed roomId room Hwk Hget Hlen)
    as Hstill.
  assert (Hname : username_of socket (step s (EDisconnect departed)) =
                  username_of socket s).
  { unfold step. now rewrite handle_disconnect. }
  unfold o. rewrite (handle_joinRoom_stored _ socket roomId room Hstill).
  cbn [sent final].
  rewrite (step_joinRoom_stored _ socket roomId AckFn room Hstill).
  cbn [rooms]. rewrite Hname. fold roomUpdate.
  split; [now left|]. split; [apply JsMapFacts.get_set_same|]. split.
  - unfold handles, roomUpdate. cbn. rewrite map_app, in_app_iff. now left.
  - unfold members. cbn [memberships]. rewrite group_joined.
    rewrite String.eqb_refl.
    assert (Hgone : ~ In departed
                      (group roomId
                         (memberships (step s (EDisconnect departed))))).
    { unfold step. rewrite handle_disconnect. cbn [final memberships].
      rewrite in_group, filter_In. cbn. rewrite String.eqb_refl.
      intros [_ [=]]. }
    destruct (existsb _ _); [assumption|].
    rewrite in_app_iff. intros [Hin|[Heq|[]]]; [auto|congruence].
Qed.

Lemma joinRoom_after_disconnect_lists_the_departed_witness :
  In (Ack "c" (RRoom {| Room.roomId := "r1";
                        Room.players :=
                          [alice; bob;
                           {| Player.id := "c"; Player.username := None |}] |}))
     (sent (handle (EJoinRoom "c" "r1" AckFn)
                   (step playing (EDisconnect "a")))).
Proof.
  assert (Hne : "a" <> "c") by discriminate.
  assert (Hlen : 2 <= List.length [alice; bob]) by (cbn; lia).
  assert (Hin : In "a" (handles {| Room.roomId := "r1";
                                   Room.players := [alice; bob] |}))
    by (cbn; tauto).
  exact (proj1 (joinRoom_after_disconnect_lists_the_departed
                  playing "a" "c" "r1"
                  {| Room.roomId := "r1"; Room.players := [alice; bob] |}
                  playing_well_keyed eq_refl Hlen Hin Hne)).
Defined.

(** ** [closeRoom], further *)

(** X12. A [closeRoom] sends [closeRoom] with the roomId once to every socket
    of the group but the sender, then takes every socket, the sender
    included, out of that group and leaves all other groups as they
    are. *)
Theorem closeRoom_notifies_and_empties_the_group s socket roomId :
  let o := handle (ECloseRoom socket roomId) s in
  sent o = map (fun c => Deliver c "closeRoom" roomId (PClose roomId))
               (others socket (members roomId s)) /\
  members roomId (final o) = [] /\
  (forall r, r <> roomId -> members r (final o) = members r s) /\
  usernames (final o) = usernames s.
Proof.
  cbn zeta. rewrite handle_closeRoom. cbn [final sent usernames].
  unfold members. cbn [memberships]. unfold group.
  split; [reflexivity|]. split; [|split; [|reflexivity]].
  - rewrite filter_filter, filter_none; [reflexivity|].
    intros [c r] _. cbn. now destruct (String.eqb r roomId).
  - intros r Hne. rewrite filter_filter. f_equal. apply filter_ext.
    intros [c r']. cbn.
    destruct (String.eqb_spec r' roomId) as [->|]; cbn; [|reflexivity].
    symmetry. apply String.eqb_neq. congruence.
Qed.

(** X13. Once a [closeRoom] for a roomId has run, a [joinRoom] for it finds no
    room, whoever sends either and whatever the room held: the state stays
    as the [closeRoom] left it and the answer is 'room does not exist'. *)
Theorem joinRoom_after_closeRoom_finds_no_room s closer socket roomId callback :
  handle (EJoinRoom socket roomId callback)
         (step s (ECloseRoom closer roomId)) =
  {| final := step s (ECloseRoom closer roomId);
     sent := if truthy callback
             then [Ack socket (RError true "room does not exist")]
             else [];
     completion := Returned tt |}.
Proof.
  apply handle_joinRoom_unknown. unfold step. rewrite handle_closeRoom.
  cbn [final rooms]. apply JsMapFacts.get_delete_same.
Qed.

(** ** [username] *)

(** X14. The username a room stores for its creator is the last one the socket
    sent before [createRoom]; a later [username] changes what the socket
    carries, not what the room stores. *)
Theorem createRoom_stores_last_username s socket callback uuid n1 n2 n3 :
  let s' := run [ EUsername socket n1; EUsername socket n2;
                  ECreateRoom socket callback uuid;
                  EUsername socket n3 ] s in
  JsMap.get uuid (rooms s') =
    Some {| Room.roomId := uuid;
            Room.players := [ {| Player.id := socket;
                                 Player.username := Some n2 |} ] |} /\
  username_of socket s' = Some n3.
Proof.
  cbn zeta. unfold run. cbn [fold_left].
  rewrite !step_username, step_createRoom. cbn [rooms usernames].
  unfold username_of. cbn [usernames].
  rewrite !JsMapFacts.get_set_same. split; reflexivity.
Qed.

(** * The first version of the server: properties *)

Lemma legacy_group_join_group socket room room' ms :
  group room' (Legacy.join_group socket room ms) =
  if String.eqb room room'
  then (if existsb (same (socket, room)) ms then group room' ms
        else group room' ms ++ [socket])
  else group room' ms.
Proof. apply group_joined. Qed.

Lemma legacy_joinRoom_appends_and_notifies_aux s socket roomId names :
  group roomId (Legacy.memberships s) <> [] ->
  JsMap.get roomId (Legacy.rooms s) = Some names ->
  JsMap.get roomId
    (Legacy.rooms (Legacy.final (Legacy.handle (EJoinRoom socket roomId AckFn) s)))
    = Some (names ++ [JsMap.get socket (Legacy.usernames s)]) /\
  In socket
     (group roomId
        (Legacy.memberships
           (Legacy.final (Legacy.handle (EJoinRoom socket roomId AckFn) s)))).
Proof.
  intros Hgroup Hget. cbn [Legacy.handle]. unfold Legacy.joinRoom.
  destruct (group roomId (Legacy.memberships s)) as [|c0 cs] eqn:Hg;
    [congruence|].
  cbn [List.length Nat.eqb]. rewrite Hget. cbn.
  rewrite JsMapFacts.get_set_same. split; [reflexivity|].
  apply member_after_join.
Qed.

Lemma legacy_joinRoom_appends_and_notifies_core s socket roomId names :
  group roomId (Legacy.memberships s) <> [] ->
  JsMap.get roomId (Legacy.rooms s) = Some names ->
  let o := Legacy.handle (EJoinRoom socket roomId AckFn) s in
  let players := names ++ [JsMap.get socket (Legacy.usernames s)] in
  Legacy.thrown o = None /\
  JsMap.get roomId (Legacy.rooms (Legacy.final o)) = Some players /\
  Legacy.sent o =
    Legacy.Ack socket (Legacy.RJoined roomId (Some players)) ::
    map (fun c => Legacy.Deliver c "opponentJoined" roomId
                    (Legacy.PPlayers (Some players)))
        (others socket (group roomId (Legacy.memberships s))) /\
  In socket (group roomId (Legacy.memberships (Legacy.final o))).
Proof.
  intros Hgroup Hget. cbn [Legacy.handle]. unfold Legacy.joinRoom.
  destruct (group roomId (Legacy.memberships s)) as [|c0 cs] eqn:Hg;
    [congruence|].
  cbn [List.length Nat.eqb]. rewrite Hget. cbn.
  rewrite JsMapFacts.get_set_same.
  split; [reflexivity|]. split; [reflexivity|].
  split; [|apply member_after_join].
  pose proof (group_after_join socket roomId (Legacy.memberships s)) as Hj.
  rewrite Hg in Hj. unfold others, group in Hj.
  unfold Legacy.join_group. rewrite Hj. reflexivity.
Qed.

(** X15. In the first server a [joinRoom] with callback for a room that has a
    socket in its group and an entry in the map appends the sender's
    username to the entry, answers the sender with the roomId and the
    array as stored, then sends that array as [opponentJoined] to every
    other socket of the group; how many names the entry holds is never
    looked at. *)
Theorem legacy_joinRoom_appends_and_notifies s socket roomId names :
  group roomId (Legacy.memberships s) <> [] ->
  JsMap.get roomId (Legacy.rooms s) = Some names ->
  let o := Legacy.handle (EJoinRoom socket roomId AckFn) s in
  let players := names ++ [JsMap.get socket (Legacy.usernames s)] in
  Legacy.thrown o = None /\
  JsMap.get roomId (Legacy.rooms (Legacy.final o)) = Some players /\
  Legacy.sent o =
    Legacy.Ack socket (Legacy.RJoined roomId (Some players)) ::
    map (fun c => Legacy.Deliver c "opponentJoined" roomId
                    (Legacy.PPlayers (Some players)))
        (others socket (group roomId (Legacy.memberships s))) /\
  In socket (group roomId (Legacy.memberships (Legacy.final o))).
Proof.
  intros Hgroup Hget.
  exact (legacy_joinRoom_appends_and_notifies_core s socket roomId names
           Hgroup Hget).
Qed.

Lemma legacy_joinRoom_appends_and_notifies_witness :
  Legacy.sent
    (Legacy.handle (EJoinRoom "b" "r1" AckFn)
       (Legacy.run [EUsername "a" "alice"; ECreateRoom "a" AckFn "r1"]
                   Legacy.initial)) =
  [ Legacy.Ack "b" (Legacy.RJoined "r1" (Some [Some "alice"; None]));
    Legacy.Deliver "a" "opponentJoined" "r1"
      (Legacy.PPlayers (Some [Some "alice"; None])) ].
Proof.
  assert (Hgroup :
            group "r1"
              (Legacy.memberships
                 (Legacy.run [EUsername "a" "alice";
                              ECreateRoom "a" AckFn "r1"] Legacy.initial))
            <> []) by (cbn; discriminate).
  exact (proj1 (proj2 (proj2 (legacy_joinRoom_appends_and_notifies
                                _ "b" "r1" [Some "alice"] Hgroup eq_refl)))).
Defined.

(** X16. In the first server a room whose creator has disconnected can no
    longer be joined, by anyone: the answer is 'room is empty' and nothing
    changes, while the entry of the room stays in the map. *)
Theorem legacy_abandoned_room_stays_and_refuses
  s creator created uuid joiner callback :
  group uuid (Legacy.memberships s) = [] ->
  let s' := Legacy.run [ECreateRoom creator created uuid;
                        EDisconnect creator] s in
  JsMap.get uuid (Legacy.rooms s') =
    Some [JsMap.get creator (Legacy.usernames s)] /\
  Legacy.handle (EJoinRoom joiner uuid callback) s' =
  {| Legacy.final := s';
     Legacy.sent := if truthy callback
                    then [Legacy.Ack joiner
                            (Legacy.RError true "room is empty")]
                    else [];
     Legacy.thrown := None |}.
Proof.
  intros Hempty s'.
  assert (Hrooms : Legacy.rooms s' =
                   JsMap.set uuid [JsMap.get creator (Legacy.usernames s)]
                             (Legacy.rooms s)).
  { unfold s', Legacy.run. cbn [fold_left]. unfold Legacy.step.
    destruct created; reflexivity. }
  assert (Hgone : group uuid (Legacy.memberships s') = []).
  { assert (Hms : Legacy.memberships s' =
                  filter (fun p => negb (String.eqb (fst p) creator))
                         (Legacy.join_group creator uuid
                                            (Legacy.memberships s))).
    { unfold s', Legacy.run. cbn [fold_left]. unfold Legacy.step.
      destruct created; reflexivity. }
    rewrite Hms.
    assert (Hno : forall c,
              ~ In c (group uuid
                        (filter (fun p => negb (String.eqb (fst p) creator))
                           (Legacy.join_group creator uuid
                              (Legacy.memberships s))))).
    { intros c Hin. apply in_group, filter_In in Hin as [Hin Hne].
      cbn in Hne. apply negb_true_iff, String.eqb_neq in Hne.
      apply in_group in Hin. rewrite legacy_group_join_group in Hin.
      rewrite String.eqb_refl, Hempty in Hin.
      destruct (existsb _ _); [destruct Hin|].
      destruct Hin as [->|[]]. congruence. }
    revert Hno.
    generalize (group uuid
                  (filter (fun p => negb (String.eqb (fst p) creator))
                     (Legacy.join_group creator uuid (Legacy.memberships s)))).
    intros [|c cs] Hno; [reflexivity|]. exfalso. apply (Hno c). now left. }
  split; [rewrite Hrooms; apply JsMapFacts.get_set_same|].
  cbn [Legacy.handle]. unfold Legacy.joinRoom. now rewrite Hgone.
Qed.

Lemma legacy_abandoned_room_stays_and_refuses_witness :
  JsMap.get "r1"
    (Legacy.rooms (Legacy.run [ECreateRoom "a" AckFn "r1"; EDisconnect "a"]
                              Legacy.initial)) = Some [None] /\
  Legacy.sent
    (Legacy.handle (EJoinRoom "b" "r1" AckFn)
       (Legacy.run [ECreateRoom "a" AckFn "r1"; EDisconnect "a"]
                   Legacy.initial)) =
  [Legacy.Ack "b" (Legacy.RError true "room is empty")].
Proof.
  pose proof (legacy_abandoned_room_stays_and_refuses
                Legacy.initial "a" AckFn "r1" "b" AckFn eq_refl)
    as [Hget Hjoin].
  split; [exact Hget|]. exact (f_equal Legacy.sent Hjoin).
Defined.

Lemma legacy_step_entry s e roomId names :
  JsMap.get roomId (Legacy.rooms s) = Some names ->
  ~ In roomId (uuids [e]) ->
  exists more, JsMap.get roomId (Legacy.rooms (Legacy.step s e)) =
               Some (names ++ more) /\ List.length more <= 1.
Proof.
  intros Hget Hnew.
  assert (Hsame : Legacy.rooms (Legacy.step s e) = Legacy.rooms s ->
            exists more, JsMap.get roomId (Legacy.rooms (Legacy.step s e)) =
                         Some (names ++ more) /\ List.length more <= 1).
  { intros ->. exists []. rewrite app_nil_r. split; [assumption|cbn; lia]. }
  destruct e as [sk name|sk cb uuid|sk r cb|sk r mv|sk|sk r];
    try (apply Hsame; reflexivity).
  - exists []. rewrite app_nil_r. split; [|cbn; lia].
    unfold Legacy.step. cbn [Legacy.handle].
    assert (Hne : roomId <> uuid) by (intros ->; apply Hnew; now left).
    destruct cb; cbn; now rewrite JsMapFacts.get_set_other.
  - unfold Legacy.step in *. cbn [Legacy.handle] in *.
    unfold Legacy.joinRoom in *.
    destruct (List.length (group r (Legacy.memberships s)) =? 0)%nat;
      [apply Hsame; reflexivity|].
    destruct (JsMap.get r (Legacy.rooms s)) as [names0|] eqn:Hr;
      [|apply Hsame; reflexivity].
    destruct (string_dec roomId r) as [->|Hne].
    + exists [JsMap.get sk (Legacy.usernames s)].
      replace names0 with names by congruence.
      split; [|cbn; lia]. destruct cb; cbn; apply JsMapFacts.get_set_same.
    + exists []. rewrite app_nil_r. split; [|cbn; lia].
      destruct cb; cbn; now rewrite JsMapFacts.get_set_other.
Qed.

(** X17. The first server never deletes an entry and never takes a name out
    of one: along any run that does not draw the roomId anew, the entry
    stays, with the same names in front. *)
Theorem legacy_entries_only_grow evs s roomId names :
  JsMap.get roomId (Legacy.rooms s) = Some names ->
  ~ In roomId (uuids evs) ->
  exists more, JsMap.get roomId (Legacy.rooms (Legacy.run evs s)) =
               Some (names ++ more).
Proof.
  revert s names. induction evs as [|e evs IH]; intros s names Hget Hnew.
  - exists []. now rewrite app_nil_r.
  - change (Legacy.run (e :: evs) s)
      with (Legacy.run evs (Legacy.step s e)).
    change (e :: evs) with ([e] ++ evs) in Hnew.
    rewrite uuids_app, in_app_iff in Hnew.
    destruct (legacy_step_entry s e roomId names Hget) as (more & Hstep & _);
      [tauto|].
    destruct (IH _ _ Hstep) as (more' & Hrun); [tauto|].
    exists (more ++ more'). now rewrite app_assoc.
Qed.

Lemma legacy_entries_only_grow_witness :
  exists more,
    JsMap.get "r1"
      (Legacy.rooms
         (Legacy.run [EJoinRoom "b" "r1" AckFn; EDisconnect "a";
                      EDisconnect "b"; ECloseRoom "b" "r1"]
            (Legacy.run [ECreateRoom "a" AckFn "r1"] Legacy.initial))) =
    Some ([None] ++ more).
Proof.
  apply (legacy_entries_only_grow
           [EJoinRoom "b" "r1" AckFn; EDisconnect "a";
            EDisconnect "b"; ECloseRoom "b" "r1"]
           (Legacy.run [ECreateRoom "a" AckFn "r1"] Legacy.initial)
           "r1" [None]).
  - reflexivity.
  - cbn. tauto.
Defined.

Lemma legacy_joins_accumulate joiners s roomId names :
  group roomId (Legacy.memberships s) <> [] ->
  JsMap.get roomId (Legacy.rooms s) = Some names ->
  exists joined,
    JsMap.get roomId
      (Legacy.rooms
         (Legacy.run (map (fun j => EJoinRoom j roomId AckFn) joiners) s)) =
    Some (names ++ joined) /\
    List.length joined = List.length joiners.
Proof.
  revert s names. induction joiners as [|j l IH]; intros s names Hgroup Hget.
  - exists []. rewrite app_nil_r. now split.
  - change (Legacy.run (map (fun j => EJoinRoom j roomId AckFn) (j :: l)) s)
      with (Legacy.run (map (fun j => EJoinRoom j roomId AckFn) l)
              (Legacy.final (Legacy.handle (EJoinRoom j roomId AckFn) s))).
    destruct (legacy_joinRoom_appends_and_notifies_aux s j roomId names
                Hgroup Hget) as (Hget' & Hin).
    destruct (IH _ _ (fun Hnil => eq_ind _ (fun l => In j l) Hin _ Hnil)
                 Hget') as (joined & Hrun & Hlen).
    exists (JsMap.get j (Legacy.usernames s) :: joined).
    rewrite <- app_assoc in Hrun. cbn in Hrun. split; [exact Hrun|].
    cbn. now rewrite Hlen.
Qed.

(** X18. The first server has no capacity at all: after a [createRoom], any
    number of [joinRoom] for that room are all accepted, and the entry
    holds one name for the creator and one for each of them. *)
Theorem legacy_room_takes_every_joiner s creator created uuid joiners :
  let s' := Legacy.run (ECreateRoom creator created uuid ::
                        map (fun j => EJoinRoom j uuid AckFn) joiners) s in
  exists names, JsMap.get uuid (Legacy.rooms s') = Some names /\
                List.length names = 1 + List.length joiners.
Proof.
  intros s'. unfold s'.
  change (Legacy.run (ECreateRoom creator created uuid ::
                      map (fun j => EJoinRoom j uuid AckFn) joiners) s)
    with (Legacy.run (map (fun j => EJoinRoom j uuid AckFn) joiners)
            (Legacy.step s (ECreateRoom creator created uuid))).
  destruct (legacy_joins_accumulate joiners
              (Legacy.step s (ECreateRoom creator created uuid)) uuid
              [JsMap.get creator (Legacy.usernames s)])
    as (joined & Hrun & Hlen).
  - assert (Hin : In creator
                    (group uuid
                       (Legacy.memberships
                          (Legacy.step s (ECreateRoom creator created uuid)))))
      by (unfold Legacy.step; destruct created; apply member_after_join).
    intros Hnil. rewrite Hnil in Hin. destruct Hin.
  - unfold Legacy.step. destruct created; cbn;
      apply JsMapFacts.get_set_same.
  - eexists. split; [exact Hrun|]. cbn. now rewrite Hlen.
Qed.

(** * The client: properties *)

Section GameComponentFacts.
Context {Game Move : Type} `{Client.ChessJs Game Move}.

Lemma makeAMove_keeps_fen (move : Client.MoveArg Move)
  (st : @Client.State Game) :
  Client.fen st = Client.game_fen (Client.game st) ->
  Client.fen (fst (Client.makeAMove move st)) =
  Client.game_fen (Client.game (fst (Client.makeAMove move st))).
Proof.
  intros Hst. unfold Client.makeAMove.
  destruct (Client.game_move (Client.game st) move); cbn; [reflexivity|].
  exact Hst.
Qed.

Lemma react_keeps_fen props (st : @Client.State Game) (u : Client.UI) :
  Client.fen st = Client.game_fen (Client.game st) ->
  Client.fen (Client.react props st u) =
  Client.game_fen (Client.game (Client.react props st u)).
Proof.
  intros Hst. destruct u as [src tgt|mv|]; cbn [Client.react].
  - unfold Client.onDrop.
    destruct (negb _); [exact Hst|].
    pose proof (makeAMove_keeps_fen
                  (Client.moveData src tgt
                     (Client.game_turn (Client.game st)) "q") st Hst) as Hm.
    destruct (Client.makeAMove _ st) as [st' [mv|]]; exact Hm.
  - now apply makeAMove_keeps_fen.
  - exact Hst.
Qed.

(** X19. Whatever is dropped on the board, received from the server or
    dismissed, the position the board is given is the position of the
    chess.js instance. *)
Theorem board_shows_the_position_of_the_game props (uis : list Client.UI) :
  let st := fold_left (Client.react props) uis Client.mount in
  Client.fen st = Client.game_fen (Client.game st).
Proof.
  cbn zeta.
  assert (Hgen : forall st : @Client.State Game,
            Client.fen st = Client.game_fen (Client.game st) ->
            Client.fen (fold_left (Client.react props) uis st) =
            Client.game_fen
              (Client.game (fold_left (Client.react props) uis st))).
  { induction uis as [|u l IH]; intros st Hst; [exact Hst|].
    cbn [fold_left]. apply IH. now apply react_keeps_fen. }
  apply Hgen. reflexivity.
Qed.

(** X20. A drop emits at most one [move], and only when the side to move is
    the side of the player ([orientation] starts with the letter of
    [game.turn()]) and chess.js made the move, asked with promotion to a
    queen; the packet carries the move chess.js returned and the room of
    the component, and the game is then in the position after that
    move. *)
Theorem drop_emits_only_own_legal_move props src tgt
  (st : @Client.State Game) (e : Client.Emit) :
  In e (Client.emitted props st (Client.Drop src tgt)) ->
  Client.at0 (Client.orientation props) =
    Some (Client.letter (Client.game_turn (Client.game st))) /\
  exists result after,
    Client.game_move (Client.game st)
      (Client.moveData src tgt (Client.game_turn (Client.game st)) "q") =
      Client.Made result after /\
    Client.emitted props st (Client.Drop src tgt) =
      [Client.EmitMove result (Client.room props)] /\
    Client.game (Client.react props st (Client.Drop src tgt)) = after.
Proof.
  cbn [Client.emitted Client.react]. unfold Client.onDrop.
  destruct (Client.same_value _ _) eqn:Hturn; cbn [negb]; [|intros []].
  unfold Client.makeAMove.
  destruct (Client.game_move _ _) as [result after|]; cbn; [|intros []].
  intros _. split.
  - unfold Client.same_value in Hturn.
    destruct (Client.at0 _) as [c|]; [|discriminate].
    apply String.eqb_eq in Hturn. now subst.
  - exists result, after. repeat split.
Qed.

(** X21. A drop that is not played (it is not the player's turn, or chess.js
    refuses the move) changes nothing and emits nothing. *)
Theorem unplayed_drop_changes_nothing props src tgt
  (st : @Client.State Game) :
  snd (Client.onDrop props src tgt st) <> Client.ReturnsTrue ->
  Client.react props st (Client.Drop src tgt) = st /\
  Client.emitted props st (Client.Drop src tgt) = [].
Proof.
  cbn [Client.emitted Client.react]. unfold Client.onDrop.
  destruct (negb _); [now split|].
  unfold Client.makeAMove.
  destruct (Client.game_move _ _) as [result after|]; cbn; [|now split].
  intros Hno. now destruct Hno.
Qed.

End GameComponentFacts.

Lemma drop_emits_only_own_legal_move_witness :
  Client.at0 "white" = Some (Client.letter Client.w) /\
  exists result after,
    toy_move 0 (Client.moveData "e2" "e4" Client.w "q") =
      Client.Made result after /\
    Client.emitted
      {| Client.room := Some "r1"; Client.orientation := "white" |}
      Client.mount (Client.Drop "e2" "e4") =
      [Client.EmitMove result (Some "r1")] /\
    Client.game
      (Client.react
         {| Client.room := Some "r1"; Client.orientation := "white" |}
         Client.mount (Client.Drop "e2" "e4")) = after.
Proof.
  exact (@drop_emits_only_own_legal_move nat string toy_chess
           {| Client.room := Some "r1"; Client.orientation := "white" |}
           "e2" "e4" Client.mount (Client.EmitMove "e2e4" (Some "r1"))
           (or_introl eq_refl)).
Defined.

Lemma unplayed_drop_changes_nothing_witness :
  Client.react {| Client.room := Some "r1"; Client.orientation := "black" |}
               Client.mount (Client.Drop "e7" "e5") = Client.mount /\
  Client.emitted {| Client.room := Some "r1"; Client.orientation := "black" |}
                 Client.mount (Client.Drop "e7" "e5") = [].
Proof.
  apply (@unplayed_drop_changes_nothing nat string toy_chess
           {| Client.room := Some "r1"; Client.orientation := "black" |}
           "e7" "e5" Client.mount).
  cbn. discriminate.
Defined.

(** ** The lobby *)

(** X22. The lobby never sends an empty username nor an empty room id: what
    the two dialogs send is the text typed, and nothing when it is
    empty. *)
Theorem lobby_never_sends_empty_text app ig q :
  In q (snd (Client.username_continue app) ++ Client.join_continue ig) ->
  (q = Client.SendUsername (Client.app_username app) /\
   Client.app_username app <> "") \/
  (q = Client.SendJoinRoom (Client.roomInput ig) /\
   Client.roomInput ig <> "").
Proof.
  rewrite in_app_iff. unfold Client.username_continue, Client.join_continue.
  intros [Hin|Hin].
  - left. destruct (Client.app_username app); [destruct Hin|].
    destruct Hin as [<-|[]]. split; [reflexivity|discriminate].
  - right. destruct (Client.roomInput ig); [destruct Hin|].
    destruct Hin as [<-|[]]. split; [reflexivity|discriminate].
Qed.

Lemma lobby_never_sends_empty_text_witness :
  (Client.SendJoinRoom "r1" = Client.SendUsername "" /\ "" <> "") \/
  (Client.SendJoinRoom "r1" = Client.SendJoinRoom "r1" /\ "r1" <> "").
Proof.
  apply (lobby_never_sends_empty_text Client.App_mount
           {| Client.roomDialogOpen := true; Client.roomInput := "r1";
              Client.roomError := Some "" |}
           (Client.SendJoinRoom "r1")).
  cbn. now left.
Defined.

(** X24. Confirming the join dialog with the id of a room nobody is in (first
    server): the server is left as it was, the player stays in the lobby
    with the dialog as it was, and the error shown is 'room is empty'. *)
Theorem join_of_empty_room_keeps_player_in_lobby socket app ig server :
  Client.roomInput ig <> "" ->
  group (Client.roomInput ig) (Legacy.memberships server) = [] ->
  Client.join_roundtrip socket app ig server =
  (app,
   {| Client.roomDialogOpen := Client.roomDialogOpen ig;
      Client.roomInput := Client.roomInput ig;
      Client.roomError := Some "room is empty" |},
   server).
Proof.
  intros Htyped Hempty. unfold Client.join_roundtrip, Client.join_continue.
  destruct (Client.roomInput ig) as [|c rest] eqn:Hinput; [congruence|].
  unfold Legacy.joinRoom. rewrite Hempty. cbn. now rewrite Hinput.
Qed.

Lemma join_of_empty_room_keeps_player_in_lobby_witness :
  Client.join_roundtrip "b" Client.App_mount
    {| Client.roomDialogOpen := true; Client.roomInput := "r1";
       Client.roomError := Some "" |} Legacy.initial =
  (Client.App_mount,
   {| Client.roomDialogOpen := true; Client.roomInput := "r1";
      Client.roomError := Some "room is empty" |},
   Legacy.initial).
Proof.
  apply (join_of_empty_room_keeps_player_in_lobby "b" Client.App_mount
           {| Client.roomDialogOpen := true; Client.roomInput := "r1";
              Client.roomError := Some "" |} Legacy.initial).
  - discriminate.
  - reflexivity.
Defined.

Lemma join_roundtrip_typed socket app ig server :
  Client.roomInput ig <> "" ->
  Client.join_roundtrip socket app ig server =
  (fold_left (fun st e =>
                match e with
                | Legacy.Ack _ r => Client.onJoinReply r (fst st) (snd st)
                | _ => st
                end)
     (Legacy.sent (Legacy.joinRoom socket (Client.roomInput ig) AckFn server))
     (app, ig),
   Legacy.final (Legacy.joinRoom socket (Client.roomInput ig) AckFn server)).
Proof.
  intros Htyped. unfold Client.join_roundtrip, Client.join_continue.
  destruct (Client.roomInput ig) as [|ch rest]; [congruence|].
  now destruct (fold_left _ _ _).
Qed.

(** X25. Confirming the join dialog with the id of a stored room somebody is
    in (first server): the player enters the game as black, in the room
    typed, with the dialog closed, and holds the list of names the server
    stored; every [opponentJoined] the server sends carries that same
    list, so the opponent who handles it holds the list the newcomer
    holds. *)
Theorem join_of_open_room_enters_as_black socket app ig server names :
  Client.roomInput ig <> "" ->
  group (Client.roomInput ig) (Legacy.memberships server) <> [] ->
  JsMap.get (Client.roomInput ig) (Legacy.rooms server) = Some names ->
  let o := Legacy.joinRoom socket (Client.roomInput ig) AckFn server in
  let players := names ++ [JsMap.get socket (Legacy.usernames server)] in
  let app' :=
    {| Client.app_room := Some (Client.roomInput ig);
       Client.app_orientation := "black";
       Client.app_username := Client.app_username app;
       Client.app_players := Some players;
       Client.usernameGiven := Client.usernameGiven app |} in
  Client.join_roundtrip socket app ig server =
    (app',
     {| Client.roomDialogOpen := false;
        Client.roomInput := Client.roomInput ig;
        Client.roomError := Client.roomError ig |},
     Legacy.final o) /\
  Client.in_game app' = true /\
  JsMap.get (Client.roomInput ig) (Legacy.rooms (Legacy.final o)) =
    Some players /\
  (forall c event payload opponent,
     In (Legacy.Deliver c event (Client.roomInput ig)
           (Legacy.PPlayers payload)) (Legacy.sent o) ->
     Client.app_players (Client.onOpponentJoined payload opponent) =
     Client.app_players app').
Proof.
  intros Htyped Hgroup Hget o players app'.
  pose proof (legacy_joinRoom_appends_and_notifies_core
                server socket (Client.roomInput ig) names Hgroup Hget)
    as (_ & Hstored & Hsent & _).
  cbn [Legacy.handle] in Hstored, Hsent. fold o in Hstored, Hsent.
  fold players in Hstored, Hsent.
  assert (Hrest : forall l (st : Client.App * Client.InitGame),
            fold_left (fun st e =>
                         match e with
                         | Legacy.Ack _ r =>
                             Client.onJoinReply r (fst st) (snd st)
                         | _ => st
                         end)
              (map (fun c => Legacy.Deliver c "opponentJoined"
                               (Client.roomInput ig)
                               (Legacy.PPlayers (Some players))) l) st = st).
  { induction l as [|c l IH]; intros st; [reflexivity|]. cbn. apply IH. }
  split; [|split; [|split]].
  - rewrite join_roundtrip_typed by assumption. fold o. rewrite Hsent.
    cbn [fold_left]. rewrite Hrest. reflexivity.
  - unfold Client.in_game, app'. cbn.
    now destruct (Client.roomInput ig).
  - exact Hstored.
  - rewrite Hsent. intros c event payload opponent [[=]|Hin].
    apply in_map_iff in Hin as (c' & [= _ _ <-] & _). reflexivity.
Qed.

Lemma join_of_open_room_enters_as_black_witness :
  Client.join_roundtrip "b" Client.App_mount
    {| Client.roomDialogOpen := true; Client.roomInput := "r1";
       Client.roomError := Some "" |}
    (Legacy.run [EUsername "a" "alice"; ECreateRoom "a" AckFn "r1"]
                Legacy.initial) =
  ({| Client.app_room := Some "r1"; Client.app_orientation := "black";
      Client.app_username := "";
      Client.app_players := Some [Some "alice"; None];
      Client.usernameGiven := false |},
   {| Client.roomDialogOpen := false; Client.roomInput := "r1";
      Client.roomError := Some "" |},
   Legacy.final
     (Legacy.joinRoom "b" "r1" AckFn
        (Legacy.run [EUsername "a" "alice"; ECreateRoom "a" AckFn "r1"]
                    Legacy.initial))).
Proof.
  assert (Htyped : "r1" <> "") by discriminate.
  assert (Hgroup :
            group "r1"
              (Legacy.memberships
                 (Legacy.run [EUsername "a" "alice";
                              ECreateRoom "a" AckFn "r1"] Legacy.initial))
            <> []) by (cbn; discriminate).
  exact (proj1 (join_of_open_room_enters_as_black "b" Client.App_mount
                  {| Client.roomDialogOpen := true; Client.roomInput := "r1";
                     Client.roomError := Some "" |}
                  (Legacy.run [EUsername "a" "alice";
                               ECreateRoom "a" AckFn "r1"] Legacy.initial)
                  [Some "alice"] Htyped Hgroup eq_refl)).
Defined.

(** * [createRoom], whatever identifier is drawn *)



